(** * Markdown to Google-Docs request converter (gdrive_server.py)

    A shallow embedding of [parse_markdown_to_doc_requests] and
    [process_inline_markdown], together with the part of Python's [re]
    engine and [str] methods that the two functions rely on.

    Conventions of the embedding:
    - a Python [str] is a [string]; one [ascii] stands for one code point,
      so the development covers the code points U+0000..U+00FF;
    - a Python [int] is a [Z]; [len] is [String.length] cast to [Z];
    - a request [dict] is a value of the inductive type [request];
    - a regular expression is a list of quantified character classes,
      executed by a backtracking matcher [re_exec] that explores the
      alternatives in the order of Python's engine. *)

From Stdlib Require Import List Arith ZArith Lia Bool Sorted.
From Stdlib Require Import Ascii String DecimalString QArith Qround.
From Equations Require Import Equations.
From Equations.Prop Require Import Logic.
Import ListNotations.

Open Scope string_scope.
Open Scope Z_scope.

(** ** Characters *)

(** ['\n'], U+000A. *)
Definition nl : ascii := "010"%char.

(** The one-character string ["\n"]. *)
Definition NL : string := String nl "".

(** [\s] of a [str] pattern on U+0000..U+00FF: the code points whose
    [str.isspace()] is true, i.e. TAB LF VT FF CR, FS GS RS US, SPACE,
    NEL (U+0085) and NBSP (U+00A0). *)
Definition is_space (c : ascii) : bool :=
  let n := nat_of_ascii c in
  ((9 <=? n) && (n <=? 13) || (28 <=? n) && (n <=? 32)
   || (n =? 133) || (n =? 160))%nat.

(** [\d] of a [str] pattern on U+0000..U+00FF: the decimal digits 0-9. *)
Definition is_digit (c : ascii) : bool :=
  let n := nat_of_ascii c in ((48 <=? n) && (n <=? 57))%nat.

(** [.] without [re.DOTALL]: anything but a newline. *)
Definition dot (c : ascii) : bool := negb (Ascii.eqb c nl).

(** A literal character, such as [\*] or [#]. *)
Definition chr (x : ascii) (c : ascii) : bool := Ascii.eqb c x.

(** A negated one-character class, such as [[^)]]. *)
Definition not_chr (x : ascii) (c : ascii) : bool := negb (Ascii.eqb c x).

(** The class [[\-\*]]. *)
Definition dash_or_star (c : ascii) : bool :=
  Ascii.eqb c "-" || Ascii.eqb c "*".

(** ** Regular expressions *)

(** Every pattern of the two functions is a sequence of character classes,
    each with a quantifier and possibly wrapped in a capturing group, closed
    or not by [$].  [Rep cap cls lo hi greedy] is the class [cls] repeated
    between [lo] and [hi] times ([None]: unbounded), greedily or lazily;
    [cap] tells whether it is a capturing group. *)
Inductive re_item : Type :=
| Rep (cap : bool) (cls : ascii -> bool) (lo : nat) (hi : option nat)
      (greedy : bool)
| Eol.

Definition regex : Type := list re_item.

(** [x] *)
Definition lit (x : ascii) : re_item := Rep false (chr x) 1 (Some 1%nat) true.
(** [[...]] taken once *)
Definition one (cls : ascii -> bool) : re_item :=
  Rep false cls 1 (Some 1%nat) true.
(** [c+] *)
Definition plus (cls : ascii -> bool) : re_item := Rep false cls 1 None true.
(** [(c+)] *)
Definition grp_plus (cls : ascii -> bool) : re_item :=
  Rep true cls 1 None true.
(** [(c+?)] *)
Definition grp_plus_lazy (cls : ascii -> bool) : re_item :=
  Rep true cls 1 None false.

(** A match object: [group(0)] and the captured groups [group(1)], ... *)
Record re_match_obj : Type := MatchObj {
  group0 : string;
  groups : list string
}.

(** [match.group(k)] for [k >= 1]; the patterns below always set the groups
    they are asked for. *)
Definition group (m : re_match_obj) (k : nat) : string :=
  nth (k - 1) (groups m) "".

(** May the repetition take one more character after [n]? *)
Definition below (hi : option nat) (n : nat) : bool :=
  match hi with
  | None => true
  | Some h => (n <? h)%nat
  end.

(** [$] without [re.MULTILINE]: at the end of the string, or just before a
    newline that ends the string. *)
Definition at_eol (s : string) : bool :=
  match s with
  | "" => true
  | String c "" => Ascii.eqb c nl
  | _ => false
  end.

(** Prepend what an item consumed to the match of the rest of the pattern. *)
Definition extend (cap : bool) (taken : string) (m : re_match_obj)
  : re_match_obj :=
  MatchObj (taken ++ group0 m)
           (if cap then taken :: groups m else groups m).

(** The loop of one quantified class.  [n] characters are already taken;
    [k] runs the rest of the pattern.  A greedy repetition first tries to
    take one more character and only then hands over to [k]; a lazy one
    does the opposite: the alternatives are explored in the order of
    Python's backtracking engine.  The result is the text taken from the
    current position on, with the match of the rest. *)
Fixpoint rep_item (cls : ascii -> bool) (lo : nat) (hi : option nat)
  (greedy : bool) (k : string -> option re_match_obj)
  (n : nat) (s : string) {struct s} : option (string * re_match_obj) :=
  let stop (_ : unit) :=
    if (lo <=? n)%nat then
      match k s with
      | Some m => Some ("", m)
      | None => None
      end
    else None in
  let more (_ : unit) :=
    match s with
    | String a s' =>
        if cls a && below hi n then
          match rep_item cls lo hi greedy k (S n) s' with
          | Some (t, m) => Some (String a t, m)
          | None => None
          end
        else None
    | "" => None
    end in
  if greedy then
    match more tt with Some r => Some r | None => stop tt end
  else
    match stop tt with Some r => Some r | None => more tt end.

(** The backtracking matcher, anchored at the start of [s]. *)
Fixpoint re_exec (p : regex) (s : string) {struct p} : option re_match_obj :=
  match p with
  | [] => Some (MatchObj "" [])
  | Eol :: p' => if at_eol s then re_exec p' s else None
  | Rep cap cls lo hi greedy :: p' =>
      match rep_item cls lo hi greedy (re_exec p') 0%nat s with
      | Some (t, m) => Some (extend cap t m)
      | None => None
      end
  end.

(** [re.match(pattern, string)] *)
Definition re_match (p : regex) (s : string) : option re_match_obj :=
  re_exec p s.

(** [s[n:]] *)
Fixpoint drop (n : nat) (s : string) : string :=
  match n, s with
  | O, _ => s
  | S n', String _ s' => drop n' s'
  | S _, "" => ""
  end.

(** [re.sub(pattern, '', string)] for a pattern that starts with [^]: only
    a match at position 0 can be replaced, so the result is the string
    without its matched prefix, or the string itself. *)
Definition re_sub_empty (p : regex) (s : string) : string :=
  match re_match p s with
  | Some m => drop (String.length (group0 m)) s
  | None => s
  end.

(** The patterns of [parse_markdown_to_doc_requests]. *)

(** [^(#{1,6})\s+(.+)$] *)
Definition heading_re : regex :=
  [Rep true (chr "#") 1 (Some 6%nat) true; plus is_space; grp_plus dot; Eol].

(** [^[\-\*]\s+] *)
Definition bullet_re : regex := [one dash_or_star; plus is_space].

(** [^\d+\.\s+] *)
Definition numbered_re : regex := [plus is_digit; lit "."; plus is_space].

(** The patterns of [process_inline_markdown], in the order of the list
    [patterns]. *)

(** [\*\*(.+?)\*\*] *)
Definition bold_star_re : regex :=
  [lit "*"; lit "*"; grp_plus_lazy dot; lit "*"; lit "*"].
(** [__(.+?)__] *)
Definition bold_under_re : regex :=
  [lit "_"; lit "_"; grp_plus_lazy dot; lit "_"; lit "_"].
(** [\*(.+?)\*] *)
Definition italic_star_re : regex := [lit "*"; grp_plus_lazy dot; lit "*"].
(** [_(.+?)_] *)
Definition italic_under_re : regex := [lit "_"; grp_plus_lazy dot; lit "_"].
(** [\[([^\]]+)\]\(([^)]+)\)] *)
Definition link_re : regex :=
  [lit "["; grp_plus (not_chr "]"); lit "]"; lit "(";
   grp_plus (not_chr ")"); lit ")"].

(** ** Requests *)

(** The [textStyle] of an [updateTextStyle] request: either
    [{format_type: True}] with [format_type] one of ['bold'], ['italic'], or
    a link with its url and the fixed foreground colour. *)
Inductive text_style : Type :=
| StyleFlag (format_type : string)
| StyleLink (url : string).

(** The colour of a link, [{'red': 0.06, 'green': 0.46, 'blue': 0.88}], in
    hundredths. *)
Definition link_rgb_hundredths : nat * nat * nat := (6, 46, 88)%nat.

(** The value of ['fields'] that goes with a text style. *)
Definition text_style_fields (ts : text_style) : string :=
  match ts with
  | StyleFlag format_type => format_type
  | StyleLink _ => "link,foregroundColor"
  end.

(** The three request dictionaries the converter builds. *)
Inductive request : Type :=
| updateParagraphStyle (startIndex endIndex : Z) (namedStyleType : string)
| createParagraphBullets (startIndex endIndex : Z) (bulletPreset : string)
| updateTextStyle (startIndex endIndex : Z) (textStyle : text_style).

Definition startIndex (r : request) : Z :=
  match r with
  | updateParagraphStyle s _ _ | createParagraphBullets s _ _
  | updateTextStyle s _ _ => s
  end.

Definition endIndex (r : request) : Z :=
  match r with
  | updateParagraphStyle _ e _ | createParagraphBullets _ e _
  | updateTextStyle _ e _ => e
  end.

Definition is_text_style (r : request) : bool :=
  match r with updateTextStyle _ _ _ => true | _ => false end.

(** The spec's [ordered] flag of a bullet preset. *)
Definition ordered (r : request) : bool :=
  match r with
  | createParagraphBullets _ _ preset =>
      String.eqb preset "NUMBERED_DECIMAL_ALPHA_ROMAN"
  | _ => false
  end.

(** [len(s)] *)
Definition len (s : string) : Z := Z.of_nat (String.length s).

(** ** [process_inline_markdown] *)

(** The list [patterns]. *)
Definition patterns : list (regex * string) :=
  [(bold_star_re, "bold"); (bold_under_re, "bold");
   (italic_star_re, "italic"); (italic_under_re, "italic");
   (link_re, "link")].

(** The [for pattern, format_type in patterns] loop with its [break]: the
    first pattern that matches [text[i:]], with its format type. *)
Fixpoint first_match (ps : list (regex * string)) (s : string)
  : option (string * re_match_obj) :=
  match ps with
  | [] => None
  | (pattern, format_type) :: ps' =>
      match re_match pattern s with
      | Some m => Some (format_type, m)
      | None => first_match ps' s
      end
  end.

(** The request appended for a match found at output position [start]. *)
Definition inline_request (format_type : string) (m : re_match_obj)
  (start : Z) : request :=
  if String.eqb format_type "link" then
    let link_text := group m 1 in
    let link_url := group m 2 in
    updateTextStyle start (start + len link_text) (StyleLink link_url)
  else
    let inner_text := group m 1 in
    updateTextStyle start (start + len inner_text) (StyleFlag format_type).

(** Do all the characters of [s] belong to the class? *)
Fixpoint all_chars (cls : ascii -> bool) (s : string) : bool :=
  match s with
  | "" => true
  | String c s' => cls c && all_chars cls s'
  end.

(** *** Termination of the scan

    The scanning loop below moves on by [len(match.group(0))]; it ends
    because every pattern of [patterns] starts with a literal character and
    so consumes at least one.  The facts about the matcher that this rests
    on are proved here, before the loop. *)

Lemma length_drop (n : nat) (s : string) :
  String.length (drop n s) = (String.length s - n)%nat.
Proof.
  revert s; induction n as [|n IH]; intros [|c s]; simpl; auto.
Qed.

(** Soundness of the repetition loop: what it returns splits the subject
    into the text taken, made of characters of the class and within the
    bounds, and a rest on which the continuation succeeded. *)
Lemma rep_item_sound cls lo hi greedy k :
  forall s n t m,
    rep_item cls lo hi greedy k n s = Some (t, m) ->
    exists rest,
      s = t ++ rest /\ all_chars cls t = true /\
      (lo <= n + String.length t)%nat /\ k rest = Some m /\
      (t = "" \/ below hi (n + String.length t - 1) = true).
Proof.
  induction s as [|a s IH]; intros n t m H.
  - simpl in H.
    destruct (Nat.leb_spec lo n) as [Hlo|];
      [|destruct greedy; discriminate].
    destruct (k "") eqn:Hk; [|destruct greedy; discriminate].
    assert (E : t = "" /\ m = r) by (destruct greedy; now injection H).
    destruct E as [-> ->]. exists "". simpl. repeat split; auto; lia.
  - simpl in H.
    assert (E :
      (cls a && below hi n = true /\
       exists t', rep_item cls lo hi greedy k (S n) s = Some (t', m) /\
                  t = String a t') \/
      ((lo <=? n)%nat = true /\ k (String a s) = Some m /\ t = "")).
    { destruct greedy.
      - destruct (cls a && below hi n) eqn:Hc.
        + destruct (rep_item cls lo hi true k (S n) s) as [[t' m']|] eqn:Hr.
          * injection H as <- <-. left. split; auto. eauto.
          * right. destruct (lo <=? n)%nat; [|discriminate].
            destruct (k (String a s)); [|discriminate].
            injection H as <- <-. auto.
        + right. destruct (lo <=? n)%nat; [|discriminate].
          destruct (k (String a s)); [|discriminate].
          injection H as <- <-. auto.
      - destruct (lo <=? n)%nat eqn:Hlo.
        + destruct (k (String a s)) eqn:Hk.
          * injection H as <- <-. right. auto.
          * left. destruct (cls a && below hi n); [|discriminate].
            destruct (rep_item cls lo hi false k (S n) s) as [[t' m']|];
              [|discriminate].
            injection H as <- <-. split; auto. eauto.
        + left. destruct (cls a && below hi n); [|discriminate].
          destruct (rep_item cls lo hi false k (S n) s) as [[t' m']|];
            [|discriminate].
          injection H as <- <-. split; auto. eauto. }
    destruct E as [[Hc [t' [Hr ->]]] | [Hlo [Hk ->]]].
    + apply andb_true_iff in Hc as [Hca Hb].
      apply IH in Hr as [rest [-> [Hall [Hlen [Hk Hhi]]]]].
      exists rest. simpl. rewrite Hca, Hall. repeat split; auto; try lia.
      right. destruct Hhi as [-> | Hhi].
      * simpl. replace (n + 1 - 1)%nat with n by lia. exact Hb.
      * replace (n + S (String.length t') - 1)%nat
          with (S n + String.length t' - 1)%nat by lia. exact Hhi.
    + exists (String a s). apply Nat.leb_le in Hlo.
      simpl. repeat split; auto; lia.
Qed.

(** A match of a pattern that starts with a quantified class. *)
Lemma re_exec_rep cap cls lo hi greedy p s m :
  re_exec (Rep cap cls lo hi greedy :: p) s = Some m ->
  exists t m' rest,
    s = t ++ rest /\ all_chars cls t = true /\
    (lo <= String.length t)%nat /\
    (t = "" \/ below hi (String.length t - 1) = true) /\
    re_exec p rest = Some m' /\ m = extend cap t m'.
Proof.
  simpl. destruct (rep_item cls lo hi greedy (re_exec p) 0 s) as [[t m']|] eqn:E;
    [|discriminate].
  intros [= <-]. apply rep_item_sound in E as [rest [-> [Ha [Hl [Hk Hh]]]]].
  exists t, m', rest. simpl in *. repeat split; auto.
Qed.

(** A match of a pattern that starts with a literal character. *)
Lemma re_exec_lit x p s m :
  re_exec (lit x :: p) s = Some m ->
  exists rest m',
    s = String x rest /\ re_exec p rest = Some m' /\
    m = extend false (String x "") m'.
Proof.
  intros H. apply re_exec_rep in H
    as [t [m' [rest [-> [Ha [Hl [Hh [Hp ->]]]]]]]].
  destruct t as [|c [|c' t]]; simpl in Hl; try lia.
  - simpl in Ha. unfold chr in Ha. rewrite andb_true_r in Ha.
    apply Ascii.eqb_eq in Ha as ->. exists rest, m'. auto.
  - destruct Hh as [Hh|Hh]; [discriminate|]. simpl in Hh. discriminate.
Qed.

(** Every pattern of [patterns] starts with a literal character, so a match
    is never empty. *)
Lemma first_match_patterns_nonempty s format_type m :
  first_match patterns s = Some (format_type, m) ->
  (0 < String.length (group0 m))%nat.
Proof.
  unfold patterns, first_match, re_match.
  repeat match goal with
  | |- context [re_exec ?p s] =>
      let E := fresh "E" in
      destruct (re_exec p s) eqn:E;
      [ intros [= <- <-];
        apply re_exec_lit in E as [? [? [_ [_ ->]]]]; simpl; lia | ]
  end.
  discriminate.
Qed.

(** The [while i < len(text)] loop.  The loop variable [i] is represented
    by the unread suffix [s = text[i:]], so that [text[i]] is the first
    character of [s] and [i += n] is [drop n s]; [offset] is [base_index].
    On a match the inner text [group(1)] is appended to [result] and one
    request is appended for it; otherwise the character is copied. *)
Equations? inline_loop (offset : Z) (s : string) (result : string)
  (format_requests : list request) : string * list request
  by wf (String.length s) lt :=
inline_loop offset "" result format_requests := (result, format_requests);
inline_loop offset (String c s') result format_requests
  with inspect (first_match patterns (String c s')) := {
  | exist _ (Some (format_type, m)) _ :=
      inline_loop offset (drop (String.length (group0 m)) (String c s'))
        (result ++ group m 1)
        (format_requests
           ++ [inline_request format_type m (offset + len result)])%list;
  | exist _ None _ :=
      inline_loop offset s' (result ++ String c "") format_requests }.
Proof.
  pose proof
    (first_match_patterns_nonempty (String c s') format_type m e) as Hpos.
  rewrite length_drop. simpl String.length. lia.
Qed.

(** [process_inline_markdown(text, base_index)] *)
Definition process_inline_markdown (text : string) (base_index : Z)
  : string * list request :=
  inline_loop base_index text "" [].

(** ** [parse_markdown_to_doc_requests] *)

(** [s.split('\n')]: [split_first] gives the first line and the lines after
    it. *)
Fixpoint split_first (s : string) : string * list string :=
  match s with
  | "" => ("", [])
  | String c s' =>
      let (l, ls) := split_first s' in
      if Ascii.eqb c nl then ("", l :: ls) else (String c l, ls)
  end.

Definition split_nl (s : string) : list string :=
  let (l, ls) := split_first s in l :: ls.

(** [str(level)] for the f-string [f'HEADING_{level}']. *)
Definition str_of_nat (n : nat) : string :=
  NilEmpty.string_of_uint (Nat.to_uint n).

(** Does [re.match] find a match? *)
Definition matches (p : regex) (s : string) : bool :=
  match re_match p s with Some _ => true | None => false end.

(** The local variables of the converter that outlive one iteration. *)
Record state : Type := State {
  plain_text : string;
  format_requests : list request;
  current_index : Z
}.

(** The initial values: empty text, no request, index 1. *)
Definition init_state : state := State "" [] 1.

(** The inner [while i < len(lines) and re.match(p, lines[i])] loop of a
    list run: the items of the maximal run at the head of [lines], each
    without its marker, and the lines that follow the run. *)
Fixpoint collect_items (p : regex) (lines : list string)
  : list string * list string :=
  match lines with
  | [] => ([], [])
  | l :: ls =>
      if matches p l then
        let (items, rest) := collect_items p ls in
        (re_sub_empty p l :: items, rest)
      else ([], lines)
  end.

(** The heading branch. *)
Definition emit_heading (m : re_match_obj) (st : state) : state :=
  let level := String.length (group m 1) in
  let heading_text := group m 2 ++ NL in
  let start := current_index st in
  let end_ := start + len heading_text in
  State (plain_text st ++ heading_text)
        (format_requests st
           ++ [updateParagraphStyle start end_
                 ("HEADING_" ++ str_of_nat level)])%list
        end_.

(** What follows the inner loop of a list run. *)
Definition emit_list (preset : string) (list_items : list string)
  (st : state) : state :=
  let list_start := current_index st in
  let list_text := String.concat NL list_items ++ NL in
  let list_end := list_start + len list_text in
  State (plain_text st ++ list_text)
        (format_requests st
           ++ [createParagraphBullets list_start list_end preset])%list
        list_end.

(** The paragraph branch. *)
Definition emit_paragraph (line : string) (st : state) : state :=
  let (processed_line, inline_formats) :=
    process_inline_markdown line (current_index st) in
  if negb (String.eqb processed_line "") || String.eqb line "" then
    State (plain_text st ++ processed_line ++ NL)
          (format_requests st ++ inline_formats)%list
          (current_index st + (len processed_line + 1))
  else st.

(** The outer [while i < len(lines)] loop, on the lines [lines[i:]] still
    to read.  The inner loop of a list run is the nested [run]: it takes
    lines as long as they match and then gives the lines after the run
    back to the outer loop. *)
Fixpoint parse_loop (lines : list string) (st : state) {struct lines}
  : state :=
  match lines with
  | [] => st
  | line :: ls =>
      match re_match heading_re line with
      | Some heading_match => parse_loop ls (emit_heading heading_match st)
      | None =>
          if matches bullet_re line then
            (fix run (list_items : list string) (ls : list string)
               {struct ls} : state :=
               match ls with
               | [] => emit_list "BULLET_DISC_CIRCLE_SQUARE" list_items st
               | l :: ls' =>
                   if matches bullet_re l then
                     run (list_items ++ [re_sub_empty bullet_re l])%list ls'
                   else
                     parse_loop ls
                       (emit_list "BULLET_DISC_CIRCLE_SQUARE" list_items st)
               end) [re_sub_empty bullet_re line] ls
          else if matches numbered_re line then
            (fix run (list_items : list string) (ls : list string)
               {struct ls} : state :=
               match ls with
               | [] => emit_list "NUMBERED_DECIMAL_ALPHA_ROMAN" list_items st
               | l :: ls' =>
                   if matches numbered_re l then
                     run (list_items ++ [re_sub_empty numbered_re l])%list ls'
                   else
                     parse_loop ls
                       (emit_list "NUMBERED_DECIMAL_ALPHA_ROMAN" list_items
                          st)
               end) [re_sub_empty numbered_re line] ls
          else parse_loop ls (emit_paragraph line st)
      end
  end.

(** [parse_markdown_to_doc_requests(markdown)], with the final value of
    [current_index] kept beside the returned pair. *)
Definition parse_state (markdown : string) : state :=
  parse_loop (split_nl markdown) init_state.

Definition parse_markdown_to_doc_requests (markdown : string)
  : string * list request :=
  let st := parse_state markdown in (plain_text st, format_requests st).

(** ** Vocabulary of the properties

    The definitions below are not part of the program: they name what the
    properties talk about (the source text of a span, one iteration of the
    outer loop, the text a block appends, the patterns as the spec writes
    them). *)

(** The source text of a span, as the spec writes the five patterns:
    [**x**], [__x__], [*x*], [_x_] and [[text](url)], numbered in the order
    of [patterns]. *)
Definition span_source (k : nat) (inner url : string) : string :=
  match k with
  | 0%nat => "**" ++ inner ++ "**"
  | 1%nat => "__" ++ inner ++ "__"
  | 2%nat => "*" ++ inner ++ "*"
  | 3%nat => "_" ++ inner ++ "_"
  | _ => "[" ++ inner ++ "](" ++ url ++ ")"
  end.

(** The style the spec attaches to each pattern. *)
Definition span_style (k : nat) (url : string) : text_style :=
  match k with
  | 0%nat | 1%nat => StyleFlag "bold"
  | 2%nat | 3%nat => StyleFlag "italic"
  | _ => StyleLink url
  end.

(** The class of the characters of a span's inner text. *)
Definition span_class (k : nat) : ascii -> bool :=
  match k with
  | 0%nat | 1%nat | 2%nat | 3%nat => dot
  | _ => not_chr "]"
  end.

(** [spans lo l hi]: the requests of [l] are text-style requests over
    non-empty ranges that follow one another, in the order of the list,
    between [lo] and [hi]. *)
Fixpoint spans (lo : Z) (l : list request) (hi : Z) : Prop :=
  match l with
  | [] => lo <= hi
  | r :: l' =>
      is_text_style r = true /\ lo <= startIndex r /\
      startIndex r < endIndex r /\ spans (endIndex r) l' hi
  end.

(** Is there no position of [s] at which a pattern matches? *)
Fixpoint no_span_anywhere (s : string) : bool :=
  match s with
  | "" => true
  | String c s' =>
      match first_match patterns (String c s') with
      | None => no_span_anywhere s'
      | Some _ => false
      end
  end.

(** Two ranges have no position in common. *)
Definition disjoint (r1 r2 : request) : Prop :=
  forall x, ~ (startIndex r1 <= x < endIndex r1 /\
               startIndex r2 <= x < endIndex r2).

(** The kinds of block, in the priority order of the [if] chain. *)
Inductive block_kind : Type := Heading | BulletList | NumberedList | Paragraph.

(** The [if] chain of the outer loop. *)
Definition classify (line : string) : block_kind :=
  match re_match heading_re line with
  | Some _ => Heading
  | None =>
      if matches bullet_re line then BulletList
      else if matches numbered_re line then NumberedList
      else Paragraph
  end.

(** One iteration of the outer loop on the line [line] followed by the
    lines [ls]: the state after the block and the lines after it. *)
Definition block_step (line : string) (ls : list string) (st : state)
  : state * list string :=
  match re_match heading_re line with
  | Some heading_match => (emit_heading heading_match st, ls)
  | None =>
      if matches bullet_re line then
        let (items, rest) := collect_items bullet_re ls in
        (emit_list "BULLET_DISC_CIRCLE_SQUARE"
           (re_sub_empty bullet_re line :: items) st, rest)
      else if matches numbered_re line then
        let (items, rest) := collect_items numbered_re ls in
        (emit_list "NUMBERED_DECIMAL_ALPHA_ROMAN"
           (re_sub_empty numbered_re line :: items) st, rest)
      else (emit_paragraph line st, ls)
  end.

(** The text a block appends to the buffer. *)
Definition block_text (line : string) (ls : list string) (st : state)
  : string :=
  match re_match heading_re line with
  | Some heading_match => group heading_match 2 ++ NL
  | None =>
      if matches bullet_re line then
        String.concat NL
          (re_sub_empty bullet_re line :: fst (collect_items bullet_re ls))
        ++ NL
      else if matches numbered_re line then
        String.concat NL
          (re_sub_empty numbered_re line
             :: fst (collect_items numbered_re ls))
        ++ NL
      else fst (process_inline_markdown line (current_index st)) ++ NL
  end.

(** ['\n'.count] on the buffer. *)
Fixpoint count_nl (s : string) : nat :=
  match s with
  | "" => 0
  | String c s' => ((if Ascii.eqb c nl then 1 else 0) + count_nl s')%nat
  end.

(** The index and the requests follow the buffer: at every iteration the
    buffer is one shorter than the index, and the ranges of the requests
    made so far lie between 1 and the index. *)
Definition cursor_inv (st : state) : Prop :=
  len (plain_text st) = current_index st - 1 /\
  Forall (fun r => 1 <= startIndex r /\ startIndex r <= endIndex r /\
                   endIndex r <= current_index st)
         (format_requests st).

(** The patterns of the spec for the list items: [^[-*]\s+.+] and
    [^\d+\.\s+.+]. *)
Definition spec_bullet_re : regex :=
  [one dash_or_star; plus is_space; plus dot].
Definition spec_numbered_re : regex :=
  [plus is_digit; lit "."; plus is_space; plus dot].

(** What the block scanner does with a list run of pattern [p] that starts
    at [line]: the lines that follow split into the rest of the run, all
    matching, and lines of which the first does not match; the block
    appends the items joined and closed by newlines, and exactly one
    bullet request with the preset, over the range of that text. *)
Definition list_run (p : regex) (preset : string) (line : string)
  (ls : list string) (st : state) : Prop :=
  exists run rest,
    ls = (run ++ rest)%list /\
    Forall (fun l => matches p l = true) run /\
    match rest with [] => True | l :: _ => matches p l = false end /\
    snd (block_step line ls st) = rest /\
    let list_text :=
      String.concat NL (map (re_sub_empty p) (line :: run)) ++ NL in
    plain_text (fst (block_step line ls st)) = plain_text st ++ list_text /\
    format_requests (fst (block_step line ls st))
    = (format_requests st
         ++ [createParagraphBullets (current_index st)
               (current_index st + len list_text) preset])%list.

(** ** The other tools

    The tools of the server call the remote services; what is embedded of
    each is the part that decides what is sent: the checks of the arguments
    and the construction of the query or of the batch of requests.  A value
    read from a remote answer is a parameter of the function. *)

(** ['] and [\], U+0027 and U+005C. *)
Definition quote : ascii := "039"%char.
Definition backslash : ascii := "092"%char.

(** [value.replace("'", "\\'")]: every quote becomes a backslash and a
    quote. *)
Fixpoint replace_quote (value : string) : string :=
  match value with
  | "" => ""
  | String c s =>
      if Ascii.eqb c quote
      then String backslash (String quote (replace_quote s))
      else String c (replace_quote s)
  end.

(** [sanitize_query_string(value)] *)
Definition sanitize_query_string (value : string) : string :=
  if String.eqb value "" then value else replace_quote value.

(** The class [[a-zA-Z0-9_-]]. *)
Definition id_char (c : ascii) : bool :=
  let n := nat_of_ascii c in
  ((97 <=? n) && (n <=? 122) || (65 <=? n) && (n <=? 90)
   || (48 <=? n) && (n <=? 57))%nat
  || Ascii.eqb c "_" || Ascii.eqb c "-".

(** [^[a-zA-Z0-9_-]{10,100}$] *)
Definition google_id_re : regex :=
  [Rep false id_char 10 (Some 100%nat) true; Eol].

(** [validate_google_id(id_str)], for an argument that is a [str]. *)
Definition validate_google_id (id_str : string) : bool :=
  if String.eqb id_str "" then false else matches google_id_re id_str.

(** The truth value of [args.get(key)] for a string argument: false when
    the key is absent or the string is empty. *)
Definition truthy (arg : option string) : bool :=
  match arg with
  | Some s => negb (String.eqb s "")
  | None => false
  end.

(** [args[key]] for a key known to be there. *)
Definition arg_value (arg : option string) : string :=
  match arg with Some s => s | None => "" end.

(** What a tool does before it returns: it returns an error text at once,
    it raises [KeyError], or it sends requests and returns a text. *)
Inductive outcome (A : Type) : Type :=
| ErrorText (text : string)
| KeyError
| Sent (what : A) (text : string).
Arguments ErrorText {A} text.
Arguments KeyError {A}.
Arguments Sent {A} what text.

(** The start of [list_files_impl]: the early error return, or the value of
    [query] given as [q] to [files().list]. *)
Definition list_files_query (folder_id query : option string)
  : string + option string :=
  if truthy folder_id && negb (validate_google_id (arg_value folder_id))
  then inl "Error: Invalid folder ID format"
  else
    let query_parts :=
      if truthy folder_id
      then ["'" ++ sanitize_query_string (arg_value folder_id)
              ++ "' in parents"]
      else [] in
    let query_parts :=
      if truthy query
      then (query_parts
              ++ [("name contains '"
                     ++ sanitize_query_string (arg_value query)
                     ++ "'")%string])%list
      else query_parts in
    inr (match query_parts with
         | [] => None
         | _ => Some (String.concat " and " query_parts)
         end).

(** The requests of a [batchUpdate]: the two that change the text, and the
    styling requests of the converter. *)
Inductive doc_request : Type :=
| insertText (index : Z) (text : string)
| deleteContentRange (startIndex endIndex : Z)
| styleRequest (r : request).

(** [str(n)] for an [int]. *)
Definition str_of_Z (n : Z) : string :=
  NilEmpty.string_of_int (Z.to_int n).

(** A JSON number as [json] reads it: an [int], or a [float], which is
    finite, infinite or not a number.  A finite float is given by its
    value, a rational number. *)
Inductive number : Type :=
| JInt (z : Z)
| JFloat (q : Q)
| JInfinity (negative : bool)
| JNaN.

(** [x < k], [x > k] and [x == k] for a number [x] and an [int] [k]:
    Python compares an [int] and a [float] by their exact values, an
    infinity is beyond every [int], and every comparison with a NaN is
    false. *)
Definition number_ltb (x : number) (k : Z) : bool :=
  match x with
  | JInt z => z <? k
  | JFloat q => negb (Qle_bool (inject_Z k) q)
  | JInfinity negative => negative
  | JNaN => false
  end.

Definition number_gtb (x : number) (k : Z) : bool :=
  match x with
  | JInt z => z >? k
  | JFloat q => negb (Qle_bool q (inject_Z k))
  | JInfinity negative => negb negative
  | JNaN => false
  end.

Definition number_eqb (x : number) (k : Z) : bool :=
  match x with
  | JInt z => z =? k
  | JFloat q => Qeq_bool q (inject_Z k)
  | JInfinity _ => false
  | JNaN => false
  end.

(** The dictionary [heading_styles]. *)
Definition heading_styles : list (Z * string) :=
  [(1, "HEADING_1"); (2, "HEADING_2"); (3, "HEADING_3");
   (4, "HEADING_4"); (5, "HEADING_5"); (6, "HEADING_6")].

(** [d[x]] for a dictionary with [int] keys and a number [x], [None]
    standing for [KeyError]: a key is found when it equals [x], whether
    [x] is an [int] or a [float] (equal numbers have equal hashes). *)
Fixpoint dict_get (d : list (Z * string)) (x : number) : option string :=
  match d with
  | [] => None
  | (k, v) :: d' => if number_eqb x k then Some v else dict_get d' x
  end.

(** [str(x)] in the f-string of [insert_heading_impl], which is reached
    only by a number that equals one of the keys 1 to 6: the digits of an
    [int], and the digits followed by [.0] for a [float] of such a
    value. *)
Definition str_of_level (x : number) : string :=
  match x with
  | JInt z => str_of_Z z
  | JFloat q => str_of_Z (Qfloor q) ++ ".0"
  | JInfinity negative => if negative then "-inf" else "inf"
  | JNaN => "nan"
  end.

(** The insertion index of [insert_heading_impl] and
    [insert_bullet_list_impl]: [args.get('index', 1)], replaced when
    [at_end] by the end index of the last element of the document, minus
    one.  [last_end_index] is [doc['body']['content'][-1]['endIndex']]. *)
Definition insertion_index (index : option Z) (at_end : bool)
  (last_end_index : Z) : Z :=
  if at_end then last_end_index - 1
  else match index with Some i => i | None => 1 end.

(** [insert_heading_impl].  [heading_level] is any JSON number: nothing
    checks that it is an integer. *)
Definition insert_heading_impl (doc_id text : string)
  (heading_level : number) (index : option Z) (at_end : bool)
  (last_end_index : Z) : outcome (list doc_request) :=
  if negb (validate_google_id doc_id)
  then ErrorText "Error: Invalid document ID format"
  else if number_ltb heading_level 1 || number_gtb heading_level 6
  then ErrorText "Error: heading_level must be between 1 and 6"
  else
    let index := insertion_index index at_end last_end_index in
    let text_with_newline := text ++ NL in
    let end_index := index + len text_with_newline in
    match dict_get heading_styles heading_level with
    | None => KeyError
    | Some style =>
        Sent [insertText index text_with_newline;
              styleRequest (updateParagraphStyle index end_index style)]
             ("Inserted H" ++ str_of_level heading_level
                ++ " heading in document " ++ doc_id)
    end.

(** [insert_bullet_list_impl] *)
Definition insert_bullet_list_impl (doc_id : string) (items : list string)
  (numbered : bool) (index : option Z) (at_end : bool) (last_end_index : Z)
  : outcome (list doc_request) :=
  if negb (validate_google_id doc_id)
  then ErrorText "Error: Invalid document ID format"
  else
    match items with
    | [] => ErrorText "Error: No items provided"
    | _ =>
        let index := insertion_index index at_end last_end_index in
        let list_text := String.concat NL items ++ NL in
        let end_index := index + len list_text in
        let list_type := if numbered then "numbered" else "bullet" in
        Sent [insertText index list_text;
              styleRequest
                (createParagraphBullets index end_index
                   (if numbered then "NUMBERED_DECIMAL_ALPHA_ROMAN"
                    else "BULLET_DISC_CIRCLE_SQUARE"))]
             ("Inserted " ++ list_type ++ " list with "
                ++ str_of_Z (Z.of_nat (List.length items))
                ++ " items in document " ++ doc_id)
    end.

(** [replace_google_doc_content_impl].  [content] holds the [endIndex] of
    each element of [doc['body']['content']]; [content[-1]] is read only
    when there are at least two elements. *)
Definition replace_google_doc_content_impl (doc_id new_content : string)
  (content : list Z) : outcome (list doc_request) :=
  if negb (validate_google_id doc_id)
  then ErrorText "Error: Invalid document ID format"
  else
    let requests :=
      if (1 <? List.length content)%nat then
        let start_index := 1 in
        let end_index := last content 0 - 1 in
        ((if end_index >? start_index
          then [deleteContentRange start_index end_index]
          else []) ++ [insertText 1 new_content])%list
      else [insertText 1 new_content] in
    Sent requests ("Replaced content in document " ++ doc_id).

(** [markdown_to_google_doc_impl]: the early error return for a folder
    identifier that is given and not valid, or the batches sent to the new
    document, in order (the text first, then the formatting, each only if
    it is not empty) and the text returned.  [doc_id] is the
    ['documentId'] of the answer to the creation of the document; the
    creation and the move to the folder are calls to the remote services
    and are no part of the batches. *)
Definition markdown_to_google_doc_impl (title markdown : string)
  (folder_id : option string) (doc_id : string)
  : outcome (list (list doc_request)) :=
  if truthy folder_id && negb (validate_google_id (arg_value folder_id))
  then ErrorText "Error: Invalid folder ID format"
  else
    let (plain_text, format_requests) :=
      parse_markdown_to_doc_requests markdown in
    Sent (if negb (String.eqb plain_text "") then
            [insertText 1 plain_text]
              :: (match format_requests with
                  | [] => []
                  | _ => [map styleRequest format_requests]
                  end)
          else [])
         ("Created formatted Google Doc: " ++ title ++ NL
            ++ "ID: " ++ doc_id ++ NL
            ++ "Link: https://docs.google.com/document/d/" ++ doc_id
            ++ "/edit").

(** Is the folder identifier absent, empty or valid? *)
Definition folder_accepted (folder_id : option string) : bool :=
  negb (truthy folder_id) || validate_google_id (arg_value folder_id).

(** ** Vocabulary of the further properties *)

(** A request moved by [d] positions. *)
Definition shift (d : Z) (r : request) : request :=
  match r with
  | updateParagraphStyle s e n => updateParagraphStyle (s + d) (e + d) n
  | createParagraphBullets s e p => createParagraphBullets (s + d) (e + d) p
  | updateTextStyle s e t => updateTextStyle (s + d) (e + d) t
  end.

(** Is the character one that opens an inline pattern? *)
Definition is_marker (c : ascii) : bool :=
  Ascii.eqb c "*" || Ascii.eqb c "_" || Ascii.eqb c "[".

(** Is the line a paragraph without any character that opens an inline
    pattern? *)
Definition prose_line (line : string) : bool :=
  match classify line with
  | Paragraph => all_chars (fun c => negb (is_marker c)) line
  | _ => false
  end.

(** The string made of [n] times the character [c]. *)
Fixpoint repeat_char (c : ascii) (n : nat) : string :=
  match n with
  | O => ""
  | S n' => String c (repeat_char c n')
  end.

(** The first character of [s], if any, is not a white space. *)
Definition no_leading_space (s : string) : bool :=
  match s with
  | "" => true
  | String c _ => negb (is_space c)
  end.

(** A list line written as a marker, a space and an item. *)
Definition bullet_line (marker : ascii) (item : string) : string :=
  String marker (String " " item).

(** A list line written as a number, a dot, a space and an item. *)
Definition numbered_line (entry : string * string) : string :=
  fst entry ++ String "." (String " " (snd entry)).

(** Is the entry a number made of digits, with an item that holds no
    newline and does not start with a white space? *)
Definition numbered_entry (entry : string * string) : Prop :=
  fst entry <> "" /\ all_chars is_digit (fst entry) = true /\
  all_chars dot (snd entry) = true /\ no_leading_space (snd entry) = true.

(** The number of quotes of a string. *)
Fixpoint count_quotes (s : string) : nat :=
  match s with
  | "" => 0
  | String c s' => ((if Ascii.eqb c quote then 1 else 0) + count_quotes s')%nat
  end.

(** ** Strings *)

Lemma length_append (s t : string) :
  String.length (s ++ t) = (String.length s + String.length t)%nat.
Proof. induction s as [|c s IH]; simpl; [reflexivity | now rewrite IH]. Qed.

Lemma len_append (s t : string) : len (s ++ t) = len s + len t.
Proof. unfold len. rewrite length_append. lia. Qed.

Lemma len_nonneg (s : string) : 0 <= len s.
Proof. unfold len. lia. Qed.

Lemma append_empty_r (s : string) : s ++ "" = s.
Proof. induction s as [|c s IH]; simpl; [reflexivity | now rewrite IH]. Qed.

Lemma append_assoc (s t u : string) : (s ++ t) ++ u = s ++ (t ++ u).
Proof. induction s as [|c s IH]; simpl; [reflexivity | now rewrite IH]. Qed.

Lemma drop_append (s t : string) : drop (String.length s) (s ++ t) = t.
Proof. induction s as [|c s IH]; simpl; [now destruct t | exact IH]. Qed.

(** The matched text is a prefix of the subject. *)
Lemma re_exec_prefix p :
  forall s m, re_exec p s = Some m -> exists rest, s = group0 m ++ rest.
Proof.
  induction p as [|[cap cls lo hi greedy|] p IH]; intros s m H.
  - injection H as <-. exists s. reflexivity.
  - apply re_exec_rep in H as [t [m' [rest [-> [_ [_ [_ [Hp ->]]]]]]]].
    apply IH in Hp as [rest' ->]. exists rest'. simpl.
    now rewrite append_assoc.
  - simpl in H. destruct (at_eol s); [|discriminate]. now apply IH.
Qed.

(** ** The matcher and the formatter on examples

    The backtracking of [\s+] into [.+], the bound of [#{1,6}], the lazy
    [.+?] that goes on to the first closing delimiter, and the result of
    [str.split] on a final newline. *)

Example heading_re_backtracks :
  re_match heading_re "#  " = Some (MatchObj "#  " ["#"; " "]).
Proof. reflexivity. Qed.

Example heading_re_needs_text : re_match heading_re "# " = None.
Proof. reflexivity. Qed.

Example heading_re_seven_hashes : re_match heading_re "####### x" = None.
Proof. reflexivity. Qed.

Example bold_star_re_lazy :
  re_match bold_star_re "***a** b" = Some (MatchObj "***a**" ["*a"]).
Proof. reflexivity. Qed.

Example italic_star_re_on_stars :
  re_match bold_star_re "****" = None /\
  re_match italic_star_re "****" = Some (MatchObj "***" ["*"]).
Proof. split; reflexivity. Qed.

Example link_re_groups :
  re_match link_re "[docs](http://x) y"
  = Some (MatchObj "[docs](http://x)" ["docs"; "http://x"]).
Proof. reflexivity. Qed.

Example re_sub_empty_once : re_sub_empty bullet_re "-   x - y" = "x - y".
Proof. reflexivity. Qed.

Example split_nl_final_newline :
  split_nl ("a" ++ NL ++ NL ++ "b" ++ NL) = ["a"; ""; "b"; ""].
Proof. reflexivity. Qed.

Example inline_bold :
  process_inline_markdown "hello **world**" 1
  = ("hello world", [updateTextStyle 7 12 (StyleFlag "bold")]).
Proof. reflexivity. Qed.

Example inline_link :
  process_inline_markdown "[docs](http://x)" 1
  = ("docs", [updateTextStyle 1 5 (StyleLink "http://x")]).
Proof. reflexivity. Qed.

(** ** The shape of the inline matches *)

Lemma length_pos_nonempty (s : string) :
  (1 <= String.length s)%nat -> s <> "".
Proof. destruct s; simpl; [lia | discriminate]. Qed.

(** [dd(.+?)dd] for a delimiter character [d]. *)
Lemma double_delimiter_inv d s m :
  re_match [lit d; lit d; grp_plus_lazy dot; lit d; lit d] s = Some m ->
  exists inner rest,
    s = String d (String d (inner ++ String d (String d rest))) /\
    group0 m = String d (String d (inner ++ String d (String d ""))) /\
    groups m = [inner] /\ inner <> "" /\ all_chars dot inner = true.
Proof.
  unfold re_match. intros H.
  apply re_exec_lit in H as (r1 & m1 & -> & H & ->).
  apply re_exec_lit in H as (r2 & m2 & -> & H & ->).
  apply re_exec_rep in H as (inner & m3 & r3 & -> & Hall & Hlen & _ & H & ->).
  apply re_exec_lit in H as (r4 & m4 & -> & H & ->).
  apply re_exec_lit in H as (r5 & m5 & -> & H & ->).
  injection H as <-. exists inner, r5. simpl.
  repeat split; auto using length_pos_nonempty.
Qed.

(** [d(.+?)d] for a delimiter character [d]. *)
Lemma single_delimiter_inv d s m :
  re_match [lit d; grp_plus_lazy dot; lit d] s = Some m ->
  exists inner rest,
    s = String d (inner ++ String d rest) /\
    group0 m = String d (inner ++ String d "") /\
    groups m = [inner] /\ inner <> "" /\ all_chars dot inner = true.
Proof.
  unfold re_match. intros H.
  apply re_exec_lit in H as (r1 & m1 & -> & H & ->).
  apply re_exec_rep in H as (inner & m3 & r3 & -> & Hall & Hlen & _ & H & ->).
  apply re_exec_lit in H as (r4 & m4 & -> & H & ->).
  injection H as <-. exists inner, r4. simpl.
  repeat split; auto using length_pos_nonempty.
Qed.

(** [\[([^\]]+)\]\(([^)]+)\)] *)
Lemma link_inv s m :
  re_match link_re s = Some m ->
  exists text url rest,
    s = "[" ++ text ++ "](" ++ url ++ ")" ++ rest /\
    group0 m = "[" ++ text ++ "](" ++ url ++ ")" /\
    groups m = [text; url] /\ text <> "" /\ url <> "" /\
    all_chars (not_chr "]") text = true /\
    all_chars (not_chr ")") url = true.
Proof.
  unfold re_match, link_re. intros H.
  apply re_exec_lit in H as (r1 & m1 & -> & H & ->).
  apply re_exec_rep in H as (text & m2 & r2 & -> & Ht & Hlt & _ & H & ->).
  apply re_exec_lit in H as (r3 & m3 & -> & H & ->).
  apply re_exec_lit in H as (r4 & m4 & -> & H & ->).
  apply re_exec_rep in H as (url & m5 & r5 & -> & Hu & Hlu & _ & H & ->).
  apply re_exec_lit in H as (r6 & m6 & -> & H & ->).
  injection H as <-. exists text, url, r6. simpl.
  rewrite ?append_assoc. simpl. rewrite ?append_assoc. simpl.
  repeat split; auto using length_pos_nonempty.
Qed.

(** A match of the [k]-th pattern: the subject starts with a span whose
    delimiters surround a non-empty inner text, [group(0)] is the whole
    span and [group(1)] the inner text ([group(2)] the url of a link). *)
Lemma pattern_match_shape k re format_type s m :
  nth_error patterns k = Some (re, format_type) ->
  re_match re s = Some m ->
  exists inner url rest,
    s = span_source k inner url ++ rest /\
    group0 m = span_source k inner url /\
    group m 1 = inner /\ inner <> "" /\
    all_chars (span_class k) inner = true /\
    forall start,
      inline_request format_type m start =
      updateTextStyle start (start + len inner) (span_style k url).
Proof.
  intros Hk Hm.
  destruct k as [|[|[|[|[|k]]]]]; simpl in Hk;
    try (destruct k; discriminate); injection Hk as <- <-.
  1,2: apply double_delimiter_inv in Hm
      as (inner & rest & -> & Hg0 & Hg & Hne & Hall);
    exists inner, "", rest; unfold inline_request, group;
    rewrite Hg0, Hg; simpl; rewrite ?append_assoc; simpl;
    repeat split; auto.
  1,2: apply single_delimiter_inv in Hm
      as (inner & rest & -> & Hg0 & Hg & Hne & Hall);
    exists inner, "", rest; unfold inline_request, group;
    rewrite Hg0, Hg; simpl; rewrite ?append_assoc; simpl;
    repeat split; auto.
  apply link_inv in Hm as (text & url & rest & -> & Hg0 & Hg & Hne & _ & Ht & _).
  exists text, url, rest. unfold inline_request, group.
  rewrite Hg0, Hg. simpl. rewrite ?append_assoc. simpl.
  rewrite ?append_assoc. simpl. repeat split; auto.
Qed.

(** ** The scanning loop, one iteration at a time *)

(** [first_match] returns the first pattern of the list that matches. *)
Lemma first_match_some ps s format_type m :
  first_match ps s = Some (format_type, m) <->
  exists k re,
    nth_error ps k = Some (re, format_type) /\ re_match re s = Some m /\
    forall j re' ft', (j < k)%nat -> nth_error ps j = Some (re', ft') ->
                      re_match re' s = None.
Proof.
  induction ps as [|[re0 ft0] ps IH]; simpl.
  - split; [discriminate | intros (k & re & Hk & _)].
    destruct k; discriminate.
  - destruct (re_match re0 s) as [m0|] eqn:E0.
    + split.
      * intros [= <- <-]. exists 0%nat, re0. repeat split; auto.
        intros; lia.
      * intros (k & re & Hk & Hm & Hfirst). destruct k as [|k].
        -- injection Hk as <- <-. congruence.
        -- specialize (Hfirst 0%nat re0 ft0 ltac:(lia) eq_refl). congruence.
    + rewrite IH. split.
      * intros (k & re & Hk & Hm & Hfirst). exists (S k), re.
        repeat split; auto. intros [|j] re' ft' Hj Hn.
        -- injection Hn as <- <-. exact E0.
        -- apply (Hfirst j re' ft'); [lia | exact Hn].
      * intros (k & re & Hk & Hm & Hfirst). destruct k as [|k].
        -- injection Hk as <- <-. congruence.
        -- exists k, re. repeat split; auto. intros j re' ft' Hj Hn.
           apply (Hfirst (S j) re' ft'); [lia | exact Hn].
Qed.

Lemma first_match_none ps s :
  first_match ps s = None <->
  forall re ft, In (re, ft) ps -> re_match re s = None.
Proof.
  induction ps as [|[re0 ft0] ps IH]; simpl.
  - split; [intros _ ? ? [] | reflexivity].
  - destruct (re_match re0 s) as [m0|] eqn:E0.
    + split; [discriminate | intros H].
      specialize (H re0 ft0 (or_introl eq_refl)). congruence.
    + rewrite IH. split.
      * intros H re ft [[= <- <-] | Hin]; eauto.
      * intros H re ft Hin. eauto.
Qed.

(** One iteration of the loop at a non-empty suffix. *)
Lemma inline_loop_cons offset c s result reqs :
  inline_loop offset (String c s) result reqs =
  match first_match patterns (String c s) with
  | Some (format_type, m) =>
      inline_loop offset (drop (String.length (group0 m)) (String c s))
        (result ++ group m 1)
        (reqs ++ [inline_request format_type m (offset + len result)])
  | None => inline_loop offset s (result ++ String c "") reqs
  end.
Proof.
  rewrite inline_loop_equation_2. unfold inline_loop_unfold_clause_2.
  generalize (Logic.inspect (first_match patterns (String c s))).
  intros [[[format_type m]|] e]; cbv beta iota; rewrite e; reflexivity.
Qed.

(** The iteration on a match: the scan resumes right after the span. *)
Lemma inline_loop_match offset k re format_type inner url rest m result reqs :
  nth_error patterns k = Some (re, format_type) ->
  first_match patterns (span_source k inner url ++ rest)
    = Some (format_type, m) ->
  group0 m = span_source k inner url ->
  inline_loop offset (span_source k inner url ++ rest) result reqs =
  inline_loop offset rest (result ++ group m 1)
    (reqs ++ [inline_request format_type m (offset + len result)]).
Proof.
  intros Hk Hfirst Hg0.
  assert (exists c s, span_source k inner url ++ rest = String c s)
    as (c & s & E).
  { destruct k as [|[|[|[|k]]]]; simpl; eauto. }
  rewrite E in Hfirst |- *. rewrite inline_loop_cons, Hfirst.
  rewrite <- E, Hg0, drop_append. reflexivity.
Qed.

(** ** What the inline formatter returns *)

Lemma spans_weaken l : forall lo lo' hi hi',
  lo' <= lo -> hi <= hi' -> spans lo l hi -> spans lo' l hi'.
Proof.
  induction l as [|r l IH]; simpl; intros lo lo' hi hi' Hlo Hhi H.
  - lia.
  - destruct H as (Ht & Hs & He & Hrest). repeat split; auto; try lia.
    apply (IH (endIndex r) (endIndex r) hi hi'); auto; lia.
Qed.

Lemma spans_bounds l : forall lo hi, spans lo l hi -> lo <= hi.
Proof.
  induction l as [|r l IH]; simpl; intros lo hi H; [exact H|].
  destruct H as (_ & Hs & He & Hrest). apply IH in Hrest. lia.
Qed.

Lemma all_chars_append cls s t :
  all_chars cls (s ++ t) = all_chars cls s && all_chars cls t.
Proof.
  induction s as [|c s IH]; simpl; [reflexivity|].
  now rewrite IH, andb_assoc.
Qed.

Lemma span_source_inner cls k inner url :
  all_chars cls (span_source k inner url) = true ->
  all_chars cls inner = true.
Proof.
  destruct k as [|[|[|[|k]]]]; simpl;
    repeat (rewrite ?all_chars_append, ?andb_true_iff; simpl); tauto.
Qed.

Lemma span_source_length k inner url :
  (1 <= String.length (span_source k inner url))%nat.
Proof. destruct k as [|[|[|[|k]]]]; simpl; lia. Qed.

Lemma len_nonempty s : s <> "" -> 1 <= len s.
Proof. destruct s; [congruence | unfold len; simpl; lia]. Qed.

(** The loop only appends: to the text, a text that is empty only at the
    end of the input and has a newline only if the input has one; to the
    requests, text-style requests that follow one another inside the
    appended text. *)
Lemma inline_loop_spec : forall n offset s result reqs,
  (String.length s <= n)%nat ->
  exists text new,
    inline_loop offset s result reqs = (result ++ text, (reqs ++ new)%list) /\
    (s = "" -> text = "" /\ new = []) /\
    (s <> "" -> text <> "") /\
    (all_chars dot s = true -> all_chars dot text = true) /\
    spans (offset + len result) new (offset + len result + len text).
Proof.
  induction n as [|n IH]; intros offset s result reqs Hn.
  - destruct s; [|simpl in Hn; lia]. exists "", [].
    rewrite inline_loop_equation_1, append_empty_r, app_nil_r.
    simpl. repeat split; auto; try congruence. unfold len; simpl; lia.
  - destruct s as [|c s].
    { exists "", []. rewrite inline_loop_equation_1, append_empty_r, app_nil_r.
      simpl. repeat split; auto; try congruence. unfold len; simpl; lia. }
    rewrite inline_loop_cons.
    destruct (first_match patterns (String c s)) as [[format_type m]|] eqn:E.
    + apply first_match_some in E as (k & re & Hk & Hm & _).
      destruct (pattern_match_shape _ _ _ _ _ Hk Hm)
        as (inner & url & rest & Hs & Hg0 & Hg1 & Hne & _ & Hreq).
      assert (Hdrop : drop (String.length (group0 m)) (String c s) = rest)
        by (rewrite Hs, Hg0; apply drop_append).
      rewrite Hdrop, Hg1, Hreq.
      assert (Hlen : (String.length rest <= n)%nat).
      { apply (f_equal String.length) in Hs. rewrite length_append in Hs.
        pose proof (span_source_length k inner url). simpl in Hs, Hn. lia. }
      destruct (IH offset rest (result ++ inner)
                  (reqs ++ [updateTextStyle (offset + len result)
                              (offset + len result + len inner)
                              (span_style k url)])%list Hlen)
        as (text & new & Heq & _ & _ & Hdot & Hsp).
      exists (inner ++ text),
        (updateTextStyle (offset + len result)
           (offset + len result + len inner) (span_style k url) :: new).
      rewrite Heq, append_assoc, <- app_assoc. simpl.
      split; [reflexivity|]. split; [discriminate|]. split.
      { intros _. destruct inner; [congruence | discriminate]. }
      split.
      { intros Hall.
        change (all_chars dot (String c s) = true) in Hall.
        rewrite Hs, all_chars_append in Hall.
        apply andb_true_iff in Hall as [Hspan Hrest].
        rewrite all_chars_append, (span_source_inner _ _ _ _ Hspan).
        now apply Hdot. }
      pose proof (len_nonempty inner Hne).
      repeat split; try lia.
      rewrite !len_append in *.
      eapply spans_weaken; [| |exact Hsp]; lia.
    + assert (Hlen : (String.length s <= n)%nat) by (simpl in Hn; lia).
      destruct (IH offset s (result ++ String c "") reqs Hlen)
        as (text & new & Heq & _ & _ & Hdot & Hsp).
      exists (String c text), new.
      rewrite Heq, append_assoc. simpl.
      split; [reflexivity|]. split; [discriminate|].
      split; [discriminate|]. split.
      { intros Hall. apply andb_true_iff in Hall as [Hc Hrest].
        rewrite Hc. now apply Hdot. }
      rewrite len_append in Hsp. unfold len in *. simpl String.length in *.
      eapply spans_weaken; [| |exact Hsp]; lia.
Qed.

(** The same, for the function itself. *)
Lemma process_inline_markdown_spec text base_index :
  exists new,
    snd (process_inline_markdown text base_index) = new /\
    (text = "" <-> fst (process_inline_markdown text base_index) = "") /\
    (all_chars dot text = true ->
     all_chars dot (fst (process_inline_markdown text base_index)) = true) /\
    spans base_index new
      (base_index + len (fst (process_inline_markdown text base_index))).
Proof.
  unfold process_inline_markdown.
  destruct (inline_loop_spec (String.length text) base_index text "" []
              (le_n _)) as (out & new & Heq & Hempty & Hne & Hdot & Hsp).
  rewrite Heq. simpl in *. exists new. split; [reflexivity|].
  split; [|split; [exact Hdot|]].
  - split; [intros H; now apply Hempty|].
    intros ->. destruct text; [reflexivity|].
    exfalso. apply Hne; [discriminate | reflexivity].
  - unfold len in Hsp at 1 2. simpl in Hsp. rewrite !Z.add_0_r in Hsp.
    exact Hsp.
Qed.

(** ** The block scanner, one block at a time *)

(** The inner loop of a list run is [collect_items]. *)
Lemma run_collect (p : regex) (preset : string) (st : state)
  (loop : list string -> state -> state) :
  forall ls list_items,
    (fix run (list_items : list string) (ls : list string) {struct ls}
       : state :=
       match ls with
       | [] => emit_list preset list_items st
       | l :: ls' =>
           if matches p l then run (list_items ++ [re_sub_empty p l])%list ls'
           else loop ls (emit_list preset list_items st)
       end) list_items ls
    = match collect_items p ls with
      | (items, []) => emit_list preset (list_items ++ items)%list st
      | (items, rest) => loop rest (emit_list preset (list_items ++ items)%list st)
      end.
Proof.
  induction ls as [|l ls IH]; intros list_items; simpl.
  - now rewrite app_nil_r.
  - destruct (matches p l).
    + rewrite IH. destruct (collect_items p ls) as [items rest].
      now rewrite <- app_assoc.
    + now rewrite app_nil_r.
Qed.

(** The outer loop runs [block_step] until no line is left. *)
Lemma parse_loop_step line ls st :
  parse_loop (line :: ls) st =
  parse_loop (snd (block_step line ls st)) (fst (block_step line ls st)).
Proof.
  unfold block_step. cbn [parse_loop].
  destruct (re_match heading_re line); [reflexivity|].
  destruct (matches bullet_re line).
  { rewrite (run_collect bullet_re _ st parse_loop).
    destruct (collect_items bullet_re ls) as [items [|r rest]]; reflexivity. }
  destruct (matches numbered_re line); [|reflexivity].
  rewrite (run_collect numbered_re _ st parse_loop).
  destruct (collect_items numbered_re ls) as [items [|r rest]]; reflexivity.
Qed.

(** A run and the lines after it make up the lines given; the lines of the
    run match, and the first line after it, if any, does not. *)
Lemma collect_items_spec p : forall lines items rest,
  collect_items p lines = (items, rest) ->
  exists run,
    lines = (run ++ rest)%list /\ Forall (fun l => matches p l = true) run /\
    items = map (re_sub_empty p) run /\
    match rest with [] => True | l :: _ => matches p l = false end.
Proof.
  induction lines as [|l ls IH]; intros items rest H; simpl in H.
  - injection H as <- <-. exists []. repeat split; auto.
  - destruct (matches p l) eqn:E.
    + destruct (collect_items p ls) as [items' rest'].
      injection H as <- <-.
      destruct (IH items' rest' eq_refl) as (run & -> & Hall & -> & Hrest).
      exists (l :: run). repeat split; auto.
    + injection H as <- <-. exists []. repeat split; auto.
Qed.

Lemma collect_items_length p lines :
  (List.length (snd (collect_items p lines)) <= List.length lines)%nat.
Proof.
  destruct (collect_items p lines) as [items rest] eqn:E.
  apply collect_items_spec in E as (run & -> & _). simpl.
  rewrite length_app. lia.
Qed.

Lemma block_step_length line ls st :
  (List.length (snd (block_step line ls st)) <= List.length ls)%nat.
Proof.
  unfold block_step. destruct (re_match heading_re line); [simpl; lia|].
  destruct (matches bullet_re line).
  { pose proof (collect_items_length bullet_re ls).
    destruct (collect_items bullet_re ls); assumption. }
  destruct (matches numbered_re line); [|simpl; lia].
  pose proof (collect_items_length numbered_re ls).
  destruct (collect_items numbered_re ls); assumption.
Qed.

(** Induction on the iterations of the outer loop: a property of the lines
    still to read and of the state that every block preserves holds when
    the loop ends. *)
Lemma parse_loop_invariant (I : list string -> state -> Prop) :
  (forall line ls st,
      I (line :: ls) st ->
      I (snd (block_step line ls st)) (fst (block_step line ls st))) ->
  forall lines st, I lines st -> I [] (parse_loop lines st).
Proof.
  intros Hstep lines.
  remember (List.length lines) as n eqn:Hn.
  revert lines Hn. induction n as [n IH] using lt_wf_ind.
  intros [|line ls] Hn st HI; [exact HI|].
  rewrite parse_loop_step.
  apply (IH (List.length (snd (block_step line ls st)))); auto.
  pose proof (block_step_length line ls st). simpl in Hn. lia.
Qed.

(** ** What one block appends *)

(** A match of the heading pattern: between one and six [#], white space,
    and a text without newline that goes up to the end of the line. *)
Lemma heading_inv line m :
  re_match heading_re line = Some m ->
  exists hashes ws text rest,
    line = hashes ++ ws ++ text ++ rest /\
    groups m = [hashes; text] /\
    all_chars (chr "#") hashes = true /\
    (1 <= String.length hashes <= 6)%nat /\
    all_chars is_space ws = true /\ ws <> "" /\
    all_chars dot text = true /\ text <> "" /\ at_eol rest = true.
Proof.
  unfold re_match, heading_re. intros H.
  apply re_exec_rep in H as (hashes & m1 & r1 & -> & Hh & Hlh & Hhi & H & ->).
  apply re_exec_rep in H as (ws & m2 & r2 & -> & Hw & Hlw & _ & H & ->).
  apply re_exec_rep in H as (text & m3 & r3 & -> & Ht & Hlt & _ & H & ->).
  simpl in H. destruct (at_eol r3) eqn:E; [|discriminate].
  injection H as <-. exists hashes, ws, text, r3. simpl.
  repeat split; auto using length_pos_nonempty.
  destruct Hhi as [-> | Hhi]; [simpl in Hlh; lia|].
  simpl in Hhi. apply Nat.ltb_lt in Hhi. lia.
Qed.

Lemma count_nl_append s t :
  count_nl (s ++ t) = (count_nl s + count_nl t)%nat.
Proof. induction s as [|c s IH]; simpl; [reflexivity | rewrite IH; lia]. Qed.

Lemma count_nl_dot s : all_chars dot s = true -> count_nl s = 0%nat.
Proof.
  induction s as [|c s IH]; simpl; [reflexivity|].
  unfold dot at 1. intros H. apply andb_true_iff in H as [Hc Hs].
  destruct (Ascii.eqb c nl); [discriminate | now apply IH].
Qed.

Lemma all_chars_drop cls n : forall s,
  all_chars cls s = true -> all_chars cls (drop n s) = true.
Proof.
  induction n as [|n IH]; intros [|c s] H; simpl; auto.
  simpl in H. apply andb_true_iff in H as [_ H]. now apply IH.
Qed.

Lemma re_sub_empty_dot p s :
  all_chars dot s = true -> all_chars dot (re_sub_empty p s) = true.
Proof.
  unfold re_sub_empty. destruct (re_match p s); [apply all_chars_drop | auto].
Qed.

(** The lines of a list run, joined by newlines and closed by one, hold one
    newline per line. *)
Lemma count_nl_join items :
  Forall (fun l => all_chars dot l = true) items ->
  items <> [] ->
  count_nl (String.concat NL items ++ NL) = List.length items.
Proof.
  induction items as [|x [|y items] IH]; intros Hall Hne; [congruence| |].
  - inversion_clear Hall as [|? ? Hx _]. simpl String.concat.
    rewrite count_nl_append, (count_nl_dot _ Hx). reflexivity.
  - inversion_clear Hall as [|? ? Hx Hrest].
    change (String.concat NL (x :: y :: items))
      with (x ++ NL ++ String.concat NL (y :: items)).
    rewrite !append_assoc, count_nl_append, (count_nl_dot _ Hx).
    rewrite count_nl_append.
    change (String.concat NL (y :: items) ++ NL)
      with (String.concat NL (y :: items) ++ NL) in IH.
    rewrite IH; [reflexivity | exact Hrest | discriminate].
Qed.

(** The guard [if processed_line or line == ''] never fails: the formatter
    returns an empty text only for an empty line. *)
Lemma emit_paragraph_eq line st :
  emit_paragraph line st =
  State (plain_text st
           ++ fst (process_inline_markdown line (current_index st)) ++ NL)
        (format_requests st
           ++ snd (process_inline_markdown line (current_index st)))
        (current_index st
           + (len (fst (process_inline_markdown line (current_index st)))
              + 1)).
Proof.
  unfold emit_paragraph.
  destruct (process_inline_markdown_spec line (current_index st))
    as (new & _ & Hempty & _).
  destruct (process_inline_markdown line (current_index st))
    as [processed_line inline_formats]. simpl in *.
  destruct (String.eqb_spec line "") as [Hl|Hl].
  - now rewrite orb_true_r.
  - destruct (String.eqb_spec processed_line "") as [Hp|Hp];
      [|reflexivity].
    apply Hempty in Hp. contradiction.
Qed.

Lemma spans_Forall l : forall lo hi,
  spans lo l hi ->
  Forall (fun r => lo <= startIndex r /\ startIndex r < endIndex r /\
                   endIndex r <= hi) l.
Proof.
  induction l as [|r l IH]; intros lo hi H; constructor.
  - destruct H as (_ & Hs & He & Hrest). apply spans_bounds in Hrest. lia.
  - destruct H as (_ & Hs & He & Hrest). apply IH in Hrest.
    eapply Forall_impl; [|exact Hrest]. simpl. intros; lia.
Qed.

(** Every block appends its text to the buffer, advances the index by the
    length of that text, and appends requests whose ranges lie between the
    index before and the index after. *)
Lemma block_step_spec line ls st :
  exists new,
    plain_text (fst (block_step line ls st))
      = plain_text st ++ block_text line ls st /\
    current_index (fst (block_step line ls st))
      = current_index st + len (block_text line ls st) /\
    format_requests (fst (block_step line ls st))
      = (format_requests st ++ new)%list /\
    Forall (fun r => current_index st <= startIndex r /\
                     startIndex r <= endIndex r /\
                     endIndex r <= current_index (fst (block_step line ls st)))
           new.
Proof.
  pose proof (len_nonneg (block_text line ls st)) as Hpos.
  unfold block_step, block_text in *.
  destruct (re_match heading_re line) as [m|].
  { eexists. unfold emit_heading.
    cbn [fst plain_text format_requests current_index].
    split; [reflexivity|]. split; [reflexivity|].
    split; [reflexivity|].
    repeat constructor; cbn [startIndex endIndex]; lia. }
  destruct (matches bullet_re line).
  { destruct (collect_items bullet_re ls) as [items rest].
    eexists. unfold emit_list.
    cbn [fst plain_text format_requests current_index] in *.
    split; [reflexivity|]. split; [reflexivity|].
    split; [reflexivity|].
    repeat constructor; cbn [startIndex endIndex]; lia. }
  destruct (matches numbered_re line).
  { destruct (collect_items numbered_re ls) as [items rest].
    eexists. unfold emit_list.
    cbn [fst plain_text format_requests current_index] in *.
    split; [reflexivity|]. split; [reflexivity|].
    split; [reflexivity|].
    repeat constructor; cbn [startIndex endIndex]; lia. }
  cbn [fst]. rewrite emit_paragraph_eq.
  cbn [plain_text format_requests current_index].
  destruct (process_inline_markdown_spec line (current_index st))
    as (new & Hnew & _ & _ & Hsp).
  exists new. rewrite Hnew, len_append.
  split; [reflexivity|]. split; [unfold len at 3; simpl; lia|].
  split; [reflexivity|].
  apply spans_Forall in Hsp. eapply Forall_impl; [|exact Hsp].
  simpl. intros; lia.
Qed.

(** ** The properties of the converter *)

Lemma cursor_inv_step line ls st :
  cursor_inv st -> cursor_inv (fst (block_step line ls st)).
Proof.
  intros [Hlen Hall].
  destruct (block_step_spec line ls st) as (new & Hp & Hc & Hf & Hnew).
  pose proof (len_nonneg (block_text line ls st)) as Hpos.
  pose proof (len_nonneg (plain_text st)) as Hpos'.
  split.
  - rewrite Hp, Hc, len_append. lia.
  - rewrite Hf. apply Forall_app. split.
    + eapply Forall_impl; [|exact Hall]. simpl. intros; lia.
    + eapply Forall_impl; [|exact Hnew]. simpl. intros; lia.
Qed.

Lemma cursor_inv_parse markdown : cursor_inv (parse_state markdown).
Proof.
  unfold parse_state.
  apply (parse_loop_invariant (fun _ st => cursor_inv st)).
  - intros line ls st. apply cursor_inv_step.
  - split; [reflexivity | constructor].
Qed.

(** C1. Length invariant: the index starts at 1; every iteration of the
    outer loop appends the text of its block, which ends with the newline
    appended for the block, and advances the index by the length of that
    text; and for every input the returned text is as long as the final
    index minus one. *)
Theorem length_invariant :
  current_index init_state = 1 /\
  (forall line ls st,
      parse_loop (line :: ls) st
        = parse_loop (snd (block_step line ls st))
                     (fst (block_step line ls st)) /\
      plain_text (fst (block_step line ls st))
        = plain_text st ++ block_text line ls st /\
      current_index (fst (block_step line ls st))
        = current_index st + len (block_text line ls st) /\
      exists body, block_text line ls st = body ++ NL) /\
  (forall markdown,
      len (fst (parse_markdown_to_doc_requests markdown))
        = current_index (parse_state markdown) - 1).
Proof.
  split; [reflexivity|]. split.
  - intros line ls st. split; [apply parse_loop_step|].
    destruct (block_step_spec line ls st) as (new & Hp & Hc & _).
    split; [exact Hp|]. split; [exact Hc|].
    unfold block_text. destruct (re_match heading_re line); [eauto|].
    destruct (matches bullet_re line); [eauto|].
    destruct (matches numbered_re line); eauto.
  - intros markdown. apply cursor_inv_parse.
Qed.

(** C2. Range containment: for every input, every request returned by the
    converter, whatever its kind, has a range [start, end) with
    1 <= start <= end <= len(plainText) + 1. *)
Theorem range_containment : forall markdown,
  Forall (fun r =>
            1 <= startIndex r /\ startIndex r <= endIndex r /\
            endIndex r <= len (fst (parse_markdown_to_doc_requests markdown))
                          + 1)
         (snd (parse_markdown_to_doc_requests markdown)).
Proof.
  intros markdown. destruct (cursor_inv_parse markdown) as [Hlen Hall].
  unfold parse_markdown_to_doc_requests. simpl.
  eapply Forall_impl; [|exact Hall]. simpl. intros; lia.
Qed.

(** *** The examples of the spec

    [str.split] gives one more, empty, line for an input that ends with a
    newline, and one empty line for the empty input; the paragraph branch
    gives a newline to every empty line. *)

(** C3, as stated: the empty input would give an empty text.  It gives a
    newline. *)
Lemma empty_input_counterexample :
  parse_markdown_to_doc_requests "" <> ("", []).
Proof. vm_compute. discriminate. Qed.

(** C3, amended: for the empty input the converter returns the text
    ["\n"], the newline of the one empty line, and no request. *)
Theorem empty_input : parse_markdown_to_doc_requests "" = (NL, []).
Proof. reflexivity. Qed.

(** C4, as stated: ["# Title\n"] would give the text ["Title\n"]. *)
Lemma heading_round_trip_counterexample :
  fst (parse_markdown_to_doc_requests ("# Title" ++ NL)) <> "Title" ++ NL.
Proof. vm_compute. discriminate. Qed.

(** C4, amended: on ["# Title\n"] the converter returns the text
    ["Title\n\n"], the heading and the empty line after the last newline,
    and exactly one request, a paragraph style over [1,7) named
    HEADING_1. *)
Theorem heading_round_trip :
  parse_markdown_to_doc_requests ("# Title" ++ NL)
  = ("Title" ++ NL ++ NL, [updateParagraphStyle 1 7 "HEADING_1"]).
Proof. reflexivity. Qed.

(** C5, as stated: ["- a\n- b\n- c\n"] would give the text
    ["a\nb\nc\n"]. *)
Lemma bullet_run_merge_counterexample :
  fst (parse_markdown_to_doc_requests
         ("- a" ++ NL ++ "- b" ++ NL ++ "- c" ++ NL))
  <> "a" ++ NL ++ "b" ++ NL ++ "c" ++ NL.
Proof. vm_compute. discriminate. Qed.

(** C5, amended: on ["- a\n- b\n- c\n"] the converter returns the text
    ["a\nb\nc\n\n"] and exactly one request, an unordered bullet preset
    over [1,7): the three items make one run, and the run is what
    [collect_items] takes after the first item. *)
Theorem bullet_run_merge :
  parse_markdown_to_doc_requests ("- a" ++ NL ++ "- b" ++ NL ++ "- c" ++ NL)
  = ("a" ++ NL ++ "b" ++ NL ++ "c" ++ NL ++ NL,
     [createParagraphBullets 1 7 "BULLET_DISC_CIRCLE_SQUARE"]) /\
  ordered (createParagraphBullets 1 7 "BULLET_DISC_CIRCLE_SQUARE") = false /\
  collect_items bullet_re ["- b"; "- c"; ""] = (["b"; "c"], [""]).
Proof. repeat split. Qed.

Lemma inline_loop_verbatim offset : forall s result reqs,
  no_span_anywhere s = true ->
  inline_loop offset s result reqs = (result ++ s, reqs).
Proof.
  induction s as [|c s IH]; intros result reqs H.
  - now rewrite inline_loop_equation_1, append_empty_r.
  - cbn [no_span_anywhere] in H. rewrite inline_loop_cons.
    destruct (first_match patterns (String c s)); [discriminate|].
    rewrite (IH _ _ H), append_assoc. reflexivity.
Qed.

(** C7, as stated: markup that does not match a pattern would fall through
    to a verbatim copy, and ["a *b\n"] would give the text ["a *b\n"].  On
    ["**a*"], an opening [**] without a closing [**], the bold pattern does
    not match, and yet the text is not copied: the italic pattern takes
    the whole of it, with the inner text ["*a"].  And ["a *b\n"] gives one
    more newline. *)
Lemma unmatched_delimiter_counterexample :
  (re_match bold_star_re "**a*" = None /\
   process_inline_markdown "**a*" 1 <> ("**a*", [])) /\
  fst (parse_markdown_to_doc_requests ("a *b" ++ NL)) <> "a *b" ++ NL.
Proof. split; [split; [reflexivity|] |]; vm_compute; discriminate. Qed.

(** C7, amended: a text that is not a well-formed span of a pattern does
    not match that pattern; it can still match a later pattern of the
    list, as ["**a*"] does, which the italic pattern turns into ["*a"];
    where no pattern matches, the character is copied, so that a text in
    which no pattern matches at any position is returned as it is,
    without a request (the functions are total: there is no error to
    raise); and on ["a *b\n"] the converter returns the text ["a *b\n\n"]
    and no request. *)
Theorem unmatched_delimiter :
  (forall k re format_type s,
      nth_error patterns k = Some (re, format_type) ->
      (forall inner url rest,
          inner <> "" -> s <> span_source k inner url ++ rest) ->
      re_match re s = None) /\
  (re_match bold_star_re "**a*" = None /\
   process_inline_markdown "**a*" 1
   = ("*a", [updateTextStyle 1 3 (StyleFlag "italic")])) /\
  (forall offset c s result reqs,
      first_match patterns (String c s) = None ->
      inline_loop offset (String c s) result reqs
      = inline_loop offset s (result ++ String c "") reqs) /\
  (forall text base_index,
      no_span_anywhere text = true ->
      process_inline_markdown text base_index = (text, [])) /\
  parse_markdown_to_doc_requests ("a *b" ++ NL) = ("a *b" ++ NL ++ NL, []).
Proof.
  split; [|split; [split; reflexivity|split; [|split; [|reflexivity]]]].
  - intros k re format_type s Hk Hno.
    destruct (re_match re s) as [m|] eqn:E; [|reflexivity].
    destruct (pattern_match_shape _ _ _ _ _ Hk E)
      as (inner & url & rest & Hs & _ & _ & Hne & _).
    exfalso. exact (Hno inner url rest Hne Hs).
  - intros offset c s result reqs E. now rewrite inline_loop_cons, E.
  - intros text base_index H. unfold process_inline_markdown.
    now rewrite inline_loop_verbatim.
Qed.

(** The theorem at the text ["*b"] of the example, for the pattern
    [\*(.+?)\*], at its first character, and at the line ["a *b"]. *)
Lemma unmatched_delimiter_witness :
  re_match italic_star_re "*b" = None /\
  inline_loop 1 "*b" "a " [] = inline_loop 1 "b" ("a " ++ "*") [] /\
  process_inline_markdown "a *b" 1 = ("a *b", []).
Proof.
  split; [|split].
  - apply (proj1 unmatched_delimiter 2%nat italic_star_re "italic" "*b").
    + reflexivity.
    + intros [|c [|c' inner]] url rest Hne; simpl;
        [congruence | discriminate | discriminate].
  - apply (proj1 (proj2 (proj2 unmatched_delimiter)) 1 "*"%char "b" "a " []).
    reflexivity.
  - apply (proj1 (proj2 (proj2 (proj2 unmatched_delimiter))) "a *b" 1).
    reflexivity.
Defined.

(** C6. Inline priority and fall-through.  The scan of a text starts at its
    first character with an empty output and ends at the end of the text;
    the patterns are tried in the order bold ([**x**], [__x__]), italic
    ([*x*], [_x_]), link; at a position where the [k]-th pattern is the
    first that matches, the text there is a span of that pattern around a
    non-empty inner text, the inner text is appended to the output, one
    text-style request is appended over the range of the inner text, and
    the scan resumes right after the span; at a position where no pattern
    matches, the character is copied and the scan moves on by one. *)
Theorem inline_priority_and_fall_through :
  patterns = [(bold_star_re, "bold"); (bold_under_re, "bold");
              (italic_star_re, "italic"); (italic_under_re, "italic");
              (link_re, "link")] /\
  (forall text base_index,
      process_inline_markdown text base_index
        = inline_loop base_index text "" []) /\
  (forall offset result reqs,
      inline_loop offset "" result reqs = (result, reqs)) /\
  (forall offset c s result reqs k re format_type m,
      nth_error patterns k = Some (re, format_type) ->
      re_match re (String c s) = Some m ->
      (forall j re' ft',
          (j < k)%nat -> nth_error patterns j = Some (re', ft') ->
          re_match re' (String c s) = None) ->
      exists inner url rest,
        String c s = span_source k inner url ++ rest /\
        group0 m = span_source k inner url /\
        group m 1 = inner /\ inner <> "" /\
        inline_loop offset (String c s) result reqs
        = inline_loop offset rest (result ++ inner)
            (reqs ++ [updateTextStyle (offset + len result)
                        (offset + len result + len inner)
                        (span_style k url)])) /\
  (forall offset c s result reqs,
      (forall re format_type,
          In (re, format_type) patterns ->
          re_match re (String c s) = None) ->
      inline_loop offset (String c s) result reqs
      = inline_loop offset s (result ++ String c "") reqs).
Proof.
  split; [reflexivity|]. split; [reflexivity|].
  split; [intros; apply inline_loop_equation_1|]. split.
  - intros offset c s result reqs k re format_type m Hk Hm Hfirst.
    assert (E : first_match patterns (String c s) = Some (format_type, m)).
    { apply first_match_some. exists k, re. auto. }
    destruct (pattern_match_shape _ _ _ _ _ Hk Hm)
      as (inner & url & rest & Hs & Hg0 & Hg1 & Hne & _ & Hreq).
    exists inner, url, rest. split; [exact Hs|]. split; [exact Hg0|].
    split; [exact Hg1|]. split; [exact Hne|].
    rewrite inline_loop_cons, E, Hreq, Hg1.
    f_equal. rewrite Hs, Hg0. apply drop_append.
  - intros offset c s result reqs Hnone.
    apply first_match_none in Hnone.
    now rewrite inline_loop_cons, Hnone.
Qed.

(** The theorem at the positions 0 and 5 of ["**a** b"]: a bold span, then
    a character that is copied. *)
Lemma inline_priority_and_fall_through_witness :
  (exists inner url rest,
      "**a** b" = span_source 0 inner url ++ rest /\
      group0 (MatchObj "**a**" ["a"]) = span_source 0 inner url /\
      group (MatchObj "**a**" ["a"]) 1 = inner /\ inner <> "" /\
      inline_loop 1 "**a** b" "" []
      = inline_loop 1 rest ("" ++ inner)
          ([] ++ [updateTextStyle (1 + len "") (1 + len "" + len inner)
                    (span_style 0 url)])) /\
  inline_loop 1 " b" "a" [] = inline_loop 1 "b" ("a" ++ " ") [].
Proof.
  split.
  - apply (proj1 (proj2 (proj2 (proj2 inline_priority_and_fall_through)))
             1 "*"%char "*a** b" "" [] 0%nat bold_star_re "bold"
             (MatchObj "**a**" ["a"])).
    + reflexivity.
    + reflexivity.
    + intros j re' ft' Hj. lia.
  - apply (proj2 (proj2 (proj2 (proj2 inline_priority_and_fall_through)))
             1 " "%char "b" "a" []).
    intros re format_type [E|[E|[E|[E|[E|[]]]]]];
      injection E as <- <-; reflexivity.
Defined.

(** The requests of one line follow one another. *)
Lemma spans_sorted l : forall lo hi,
  spans lo l hi ->
  StronglySorted (fun r1 r2 => endIndex r1 <= startIndex r2) l.
Proof.
  induction l as [|r l IH]; intros lo hi H; constructor.
  - destruct H as (_ & _ & _ & Hrest). now apply IH in Hrest.
  - destruct H as (_ & _ & _ & Hrest). apply spans_Forall in Hrest.
    eapply Forall_impl; [|exact Hrest]. simpl. intros; lia.
Qed.

Lemma spans_text_style l : forall lo hi,
  spans lo l hi ->
  Forall (fun r => is_text_style r = true /\ startIndex r < endIndex r) l.
Proof.
  induction l as [|r l IH]; intros lo hi H; constructor.
  - destruct H as (Ht & _ & He & _). auto.
  - destruct H as (_ & _ & _ & Hrest). now apply IH in Hrest.
Qed.

(** C10. Text-style ranges: for every line and base index, every request
    of the inline formatter is a text-style request over a non-empty range
    (start < end), and of two requests of the list the earlier one ends
    before the later one starts: their ranges are disjoint and their
    starts strictly increase along the list. *)
Theorem text_style_ranges : forall line base_index,
  Forall (fun r => is_text_style r = true /\ startIndex r < endIndex r)
         (snd (process_inline_markdown line base_index)) /\
  StronglySorted
    (fun r1 r2 => endIndex r1 <= startIndex r2 /\
                  startIndex r1 < startIndex r2 /\ disjoint r1 r2)
    (snd (process_inline_markdown line base_index)).
Proof.
  intros line base_index.
  destruct (process_inline_markdown_spec line base_index)
    as (new & <- & _ & _ & Hsp).
  set (l := snd (process_inline_markdown line base_index)) in *.
  clearbody l.
  pose proof (spans_text_style _ _ _ Hsp) as Hne.
  split; [exact Hne|].
  apply spans_sorted in Hsp. clear -Hsp Hne.
  induction Hsp as [|r l Hs IH Hr]; constructor.
  - apply IH. now inversion Hne.
  - inversion_clear Hne as [|? ? [_ Hlt] _].
    eapply Forall_impl; [|exact Hr]. simpl. intros r2 Hle.
    repeat split; try lia. intros x. lia.
Qed.

(** *** One newline per line *)

(** The lines [str.split] returns hold no newline. *)
Lemma split_first_dot s :
  all_chars dot (fst (split_first s)) = true /\
  Forall (fun l => all_chars dot l = true) (snd (split_first s)).
Proof.
  induction s as [|c s [IH1 IH2]]; simpl; [auto|].
  destruct (split_first s) as [l ls]. simpl in *.
  destruct (Ascii.eqb c nl) eqn:E; simpl.
  - auto.
  - unfold dot at 1. rewrite E. auto.
Qed.

Lemma split_nl_dot s : Forall (fun l => all_chars dot l = true) (split_nl s).
Proof.
  unfold split_nl. pose proof (split_first_dot s) as [H1 H2].
  destruct (split_first s). auto.
Qed.

Lemma count_nl_line s :
  all_chars dot s = true -> count_nl (s ++ NL) = 1%nat.
Proof.
  intros H. rewrite count_nl_append, (count_nl_dot _ H). reflexivity.
Qed.

(** The text of a list run holds one newline per line of the run, and the
    lines after the run are lines of the input. *)
Lemma list_run_count p line ls :
  Forall (fun l => all_chars dot l = true) (line :: ls) ->
  (count_nl (String.concat NL
               (re_sub_empty p line :: fst (collect_items p ls)) ++ NL)
   + List.length (snd (collect_items p ls)) = S (List.length ls))%nat /\
  Forall (fun l => all_chars dot l = true) (snd (collect_items p ls)).
Proof.
  intros Hall. inversion_clear Hall as [|? ? Hline Hls].
  destruct (collect_items p ls) as [items rest] eqn:E.
  apply collect_items_spec in E as (run & -> & _ & -> & _).
  apply Forall_app in Hls as [Hrun Hrest]. simpl fst; simpl snd.
  split; [|exact Hrest].
  rewrite count_nl_join.
  - simpl. rewrite length_map, length_app. lia.
  - constructor; [now apply re_sub_empty_dot|].
    apply Forall_map. eapply Forall_impl; [|exact Hrun].
    intros l. apply re_sub_empty_dot.
  - discriminate.
Qed.

(** A block appends as many newlines as it takes lines. *)
Lemma block_step_count line ls st :
  Forall (fun l => all_chars dot l = true) (line :: ls) ->
  (count_nl (block_text line ls st)
   + List.length (snd (block_step line ls st)) = S (List.length ls))%nat /\
  Forall (fun l => all_chars dot l = true) (snd (block_step line ls st)).
Proof.
  intros Hall. unfold block_text, block_step.
  destruct (re_match heading_re line) as [m|] eqn:Eh.
  { apply heading_inv in Eh
      as (hashes & ws & text & rest & _ & Hg & _ & _ & _ & _ & Ht & _).
    unfold group. rewrite Hg. simpl nth. rewrite (count_nl_line _ Ht).
    split; [reflexivity | now inversion Hall]. }
  destruct (matches bullet_re line).
  { pose proof (list_run_count bullet_re line ls Hall) as H.
    destruct (collect_items bullet_re ls); exact H. }
  destruct (matches numbered_re line).
  { pose proof (list_run_count numbered_re line ls Hall) as H.
    destruct (collect_items numbered_re ls); exact H. }
  destruct (process_inline_markdown_spec line (current_index st))
    as (new & _ & _ & Hdot & _).
  inversion_clear Hall as [|? ? Hline Hls].
  rewrite (count_nl_line _ (Hdot Hline)). auto.
Qed.

(** C9. Newline count.  The inline formatter returns an empty text exactly
    when its line is empty, so the paragraph branch never drops a line: it
    always appends the formatted line and a newline; and for every input,
    the returned text holds exactly one newline per element of
    [markdown.split('\n')]. *)
Theorem newline_count :
  (forall line base_index,
      fst (process_inline_markdown line base_index) = "" <-> line = "") /\
  (forall line st,
      plain_text (emit_paragraph line st)
      = plain_text st
          ++ fst (process_inline_markdown line (current_index st)) ++ NL) /\
  (forall markdown,
      count_nl (fst (parse_markdown_to_doc_requests markdown))
      = List.length (split_nl markdown)).
Proof.
  split; [|split].
  - intros line base_index.
    destruct (process_inline_markdown_spec line base_index)
      as (new & _ & Hempty & _). tauto.
  - intros line st. now rewrite emit_paragraph_eq.
  - intros markdown. unfold parse_markdown_to_doc_requests, parse_state.
    cbn [fst].
    pose (I := fun (lines : list string) (st : state) =>
                 Forall (fun l => all_chars dot l = true) lines /\
                 (count_nl (plain_text st) + List.length lines
                  = List.length (split_nl markdown))%nat).
    assert (H : I [] (parse_loop (split_nl markdown) init_state)).
    { apply parse_loop_invariant.
      - intros line ls st [Hall Hcount].
        destruct (block_step_count line ls st Hall) as [Hc Hrest].
        destruct (block_step_spec line ls st) as (new & Hp & _).
        split; [exact Hrest|].
        rewrite Hp, count_nl_append. simpl in Hcount. lia.
      - split; [apply split_nl_dot | reflexivity]. }
    destruct H as [_ H]. simpl in H. lia.
Qed.

(** [split_nl] is [str.split]: the lines hold no newline, and joined by
    newlines they give the input back. *)
Lemma split_nl_join s : String.concat NL (split_nl s) = s.
Proof.
  unfold split_nl. induction s as [|c s IH]; [reflexivity|].
  simpl. destruct (split_first s) as [l ls].
  destruct (Ascii.eqb_spec c nl) as [-> | Hc].
  - change (String.concat NL ("" :: l :: ls))
      with (String nl (String.concat NL (l :: ls))).
    now rewrite IH.
  - destruct ls as [|l' ls].
    + simpl in *. now rewrite IH.
    + change (String c (l ++ NL ++ String.concat NL (l' :: ls))
              = String c s).
      f_equal. exact IH.
Qed.

(** *** The classification of the lines *)

(** A pattern whose first class must be taken at least once matches only a
    string whose first character is of that class. *)
Lemma re_exec_first_char cap cls lo hi greedy p s m :
  re_exec (Rep cap cls (S lo) hi greedy :: p) s = Some m ->
  exists c s', s = String c s' /\ cls c = true.
Proof.
  intros H. apply re_exec_rep in H as (t & _ & rest & -> & Ha & Hl & _).
  destruct t as [|c t]; [simpl in Hl; lia|].
  simpl in Ha. apply andb_true_iff in Ha as [Hc _].
  exists c, (t ++ rest). auto.
Qed.

Lemma matches_first_char cap cls lo hi greedy p s :
  matches (Rep cap cls (S lo) hi greedy :: p) s = true ->
  exists c s', s = String c s' /\ cls c = true.
Proof.
  unfold matches, re_match.
  destruct (re_exec (Rep cap cls (S lo) hi greedy :: p) s) eqn:E;
    [|discriminate].
  intros _. eapply re_exec_first_char; eauto.
Qed.

(** A list item is not a heading, and a numbered item is not a bullet
    item: the three patterns start with different characters. *)
Lemma bullet_not_heading line :
  matches bullet_re line = true -> re_match heading_re line = None.
Proof.
  intros H. apply matches_first_char in H as (c & s & -> & Hc).
  destruct (re_match heading_re (String c s)) eqn:E; [|reflexivity].
  apply re_exec_first_char in E as (c' & s' & [= <- <-] & Hc').
  unfold chr in Hc'. apply Ascii.eqb_eq in Hc'. subst c. discriminate.
Qed.

Lemma numbered_not_heading line :
  matches numbered_re line = true -> re_match heading_re line = None.
Proof.
  intros H. apply matches_first_char in H as (c & s & -> & Hc).
  destruct (re_match heading_re (String c s)) eqn:E; [|reflexivity].
  apply re_exec_first_char in E as (c' & s' & [= <- <-] & Hc').
  unfold chr in Hc'. apply Ascii.eqb_eq in Hc'. subst c. discriminate.
Qed.

Lemma numbered_not_bullet line :
  matches numbered_re line = true -> matches bullet_re line = false.
Proof.
  intros H. apply matches_first_char in H as (c & s & -> & Hc).
  destruct (matches bullet_re (String c s)) eqn:E; [|reflexivity].
  apply matches_first_char in E as (c' & s' & [= <- <-] & Hc').
  unfold dash_or_star in Hc'. apply orb_true_iff in Hc' as [H|H];
    apply Ascii.eqb_eq in H; subst c; discriminate.
Qed.

(** A greedy repetition that has taken enough characters succeeds as soon
    as the rest of the pattern accepts any string. *)
Lemma rep_item_greedy_enough cls lo hi k n s :
  (lo <= n)%nat -> (forall s', k s' <> None) ->
  rep_item cls lo hi true k n s <> None.
Proof.
  intros Hlo Hk. apply Nat.leb_le in Hlo.
  destruct s as [|a s]; simpl; rewrite Hlo.
  - specialize (Hk ""). destruct (k ""); congruence.
  - specialize (Hk (String a s)).
    destruct (cls a && below hi n);
      [destruct (rep_item cls lo hi true k (S n) s) as [[t m]|]|];
      destruct (k (String a s)); congruence.
Qed.

(** A class taken once, on a string that starts with a character of the
    class: the rest of the pattern runs on the rest of the string. *)
Lemma re_exec_one cls p c s :
  cls c = true ->
  re_exec (one cls :: p) (String c s)
  = match re_exec p s with
    | Some m => Some (extend false (String c "") m)
    | None => None
    end.
Proof.
  intros Hc. unfold one. cbn [re_exec rep_item]. rewrite Hc.
  cbn [below Nat.ltb Nat.leb andb].
  destruct s as [|a s]; cbn [rep_item below Nat.ltb Nat.leb].
  - destruct (re_exec p ""); reflexivity.
  - rewrite andb_false_r. destruct (re_exec p (String a s)); reflexivity.
Qed.

(** [c+] at the end of a pattern, on a string that starts with a character
    of the class. *)
Lemma re_exec_plus_last cls w s :
  cls w = true -> re_exec [plus cls] (String w s) <> None.
Proof.
  intros Hw. unfold plus. cbn [re_exec rep_item]. rewrite Hw.
  cbn [below andb].
  pose proof (rep_item_greedy_enough cls 1 None
                (fun _ => Some (MatchObj "" [])) 1 s (le_n 1)) as H.
  destruct (rep_item cls 1 None true _ 1 s) as [[t m]|];
    [discriminate|].
  exfalso. apply H; [discriminate | reflexivity].
Qed.

(** The bullet pattern matches exactly the lines made of a marker, a white
    space, and anything. *)
Lemma matches_bullet_iff line :
  matches bullet_re line = true <->
  exists c w rest,
    line = String c (String w rest) /\
    dash_or_star c = true /\ is_space w = true.
Proof.
  split.
  - unfold matches, re_match, bullet_re.
    destruct (re_exec _ line) as [m|] eqn:E; [intros _ | discriminate].
    apply re_exec_rep in E as (t & m1 & r1 & -> & Ht & Hlt & Hhi & E & _).
    apply re_exec_first_char in E as (w & r2 & -> & Hw).
    destruct t as [|c [|c' t]]; simpl in Hlt; try lia.
    + simpl in Ht. rewrite andb_true_r in Ht. exists c, w, r2. auto.
    + destruct Hhi as [Hhi|Hhi]; discriminate.
  - intros (c & w & rest & -> & Hc & Hw).
    unfold matches, re_match, bullet_re. rewrite (re_exec_one _ _ _ _ Hc).
    pose proof (re_exec_plus_last is_space w rest Hw) as H.
    destruct (re_exec [plus is_space] (String w rest)); congruence.
Qed.

(** A greedy repetition succeeds when the string starts with enough
    characters of the class, followed by a string the rest of the pattern
    accepts. *)
Lemma rep_item_greedy_stop cls lo hi k n s :
  (lo <= n)%nat -> k s <> None -> rep_item cls lo hi true k n s <> None.
Proof.
  intros Hlo Hk. apply Nat.leb_le in Hlo.
  destruct s as [|a s]; simpl; rewrite Hlo.
  - destruct (k ""); congruence.
  - destruct (cls a && below hi n);
      [destruct (rep_item cls lo hi true k (S n) s) as [[t m]|]|];
      destruct (k (String a s)); congruence.
Qed.

Lemma rep_item_greedy_prefix cls lo k rest : forall t n,
  all_chars cls t = true -> (lo <= n + String.length t)%nat ->
  k rest <> None ->
  rep_item cls lo None true k n (t ++ rest) <> None.
Proof.
  induction t as [|c t IH]; intros n Hall Hlo Hk.
  - simpl in Hlo. apply rep_item_greedy_stop; [lia | exact Hk].
  - simpl in Hall. apply andb_true_iff in Hall as [Hc Hall].
    specialize (IH (S n) Hall ltac:(simpl in Hlo; lia) Hk).
    change (String c t ++ rest) with (String c (t ++ rest)).
    cbn [rep_item]. rewrite Hc. cbn [below andb].
    destruct (rep_item cls lo None true k (S n) (t ++ rest)) as [[t' m]|];
      [discriminate | congruence].
Qed.

(** The numbered pattern matches exactly the lines made of digits, a dot,
    a white space, and anything. *)
Lemma matches_numbered_iff line :
  matches numbered_re line = true <->
  exists digits w rest,
    line = digits ++ String "." (String w rest) /\
    digits <> "" /\ all_chars is_digit digits = true /\ is_space w = true.
Proof.
  split.
  - unfold matches, re_match, numbered_re.
    destruct (re_exec _ line) as [m|] eqn:E; [intros _ | discriminate].
    apply re_exec_rep in E as (t & m1 & r1 & -> & Ht & Hlt & _ & E & _).
    apply re_exec_lit in E as (r2 & m2 & -> & E & _).
    apply re_exec_first_char in E as (w & r3 & -> & Hw).
    exists t, w, r3. auto using length_pos_nonempty.
  - intros (digits & w & rest & -> & Hne & Hd & Hw).
    unfold matches, re_match, numbered_re, plus at 1. cbn [re_exec].
    assert (H : rep_item is_digit 1 None true
                  (re_exec [lit "."; plus is_space]) 0
                  (digits ++ String "." (String w rest)) <> None).
    { apply rep_item_greedy_prefix; [exact Hd | |].
      - destruct digits; [congruence | simpl; lia].
      - change (lit ".") with (one (chr ".")).
        rewrite re_exec_one by reflexivity.
        pose proof (re_exec_plus_last is_space w rest Hw) as H.
        destruct (re_exec [plus is_space] (String w rest)); congruence. }
    destruct (rep_item is_digit 1 None true _ 0 _) as [[t m]|];
      [reflexivity | congruence].
Qed.

(** The [if] chain takes the bullet branch exactly for the lines that
    match the bullet pattern, and the numbered branch exactly for the
    lines that match the numbered pattern. *)
Lemma classify_bullet line :
  classify line = BulletList <-> matches bullet_re line = true.
Proof.
  unfold classify. split.
  - destruct (re_match heading_re line); [discriminate|].
    destruct (matches bullet_re line); [reflexivity|].
    destruct (matches numbered_re line); discriminate.
  - intros H. now rewrite (bullet_not_heading _ H), H.
Qed.

Lemma classify_numbered line :
  classify line = NumberedList <-> matches numbered_re line = true.
Proof.
  unfold classify. split.
  - destruct (re_match heading_re line); [discriminate|].
    destruct (matches bullet_re line); [discriminate|].
    destruct (matches numbered_re line); [reflexivity | discriminate].
  - intros H.
    now rewrite (numbered_not_heading _ H), (numbered_not_bullet _ H), H.
Qed.

Lemma block_step_bullet line ls st :
  matches bullet_re line = true ->
  list_run bullet_re "BULLET_DISC_CIRCLE_SQUARE" line ls st.
Proof.
  intros H. unfold list_run, block_step.
  rewrite (bullet_not_heading _ H), H.
  destruct (collect_items bullet_re ls) as [items rest] eqn:E.
  apply collect_items_spec in E as (run & -> & Hall & -> & Hrest).
  exists run, rest. repeat split; auto.
Qed.

Lemma block_step_numbered line ls st :
  matches numbered_re line = true ->
  list_run numbered_re "NUMBERED_DECIMAL_ALPHA_ROMAN" line ls st.
Proof.
  intros H. unfold list_run, block_step.
  rewrite (numbered_not_heading _ H), (numbered_not_bullet _ H), H.
  destruct (collect_items numbered_re ls) as [items rest] eqn:E.
  apply collect_items_spec in E as (run & -> & Hall & -> & Hrest).
  exists run, rest. repeat split; auto.
Qed.

(** The patterns of the spec are stricter than those of the code: a line
    they match is a list item. *)
Lemma spec_bullet_re_stricter line :
  matches spec_bullet_re line = true -> matches bullet_re line = true.
Proof.
  unfold matches at 1, re_match, spec_bullet_re.
  destruct (re_exec _ line) as [m|] eqn:E; [intros _ | discriminate].
  apply re_exec_rep in E as (t & m1 & r1 & -> & Ht & Hlt & Hhi & E & _).
  apply re_exec_first_char in E as (w & r2 & -> & Hw).
  apply matches_bullet_iff.
  destruct t as [|c [|c' t]]; simpl in Hlt; try lia.
  - simpl in Ht. rewrite andb_true_r in Ht. exists c, w, r2. auto.
  - destruct Hhi as [Hhi|Hhi]; discriminate.
Qed.

Lemma spec_numbered_re_stricter line :
  matches spec_numbered_re line = true -> matches numbered_re line = true.
Proof.
  unfold matches at 1, re_match, spec_numbered_re.
  destruct (re_exec _ line) as [m|] eqn:E; [intros _ | discriminate].
  apply re_exec_rep in E as (t & m1 & r1 & -> & Ht & Hlt & _ & E & _).
  apply re_exec_lit in E as (r2 & m2 & -> & E & _).
  apply re_exec_first_char in E as (w & r3 & -> & Hw).
  apply matches_numbered_iff.
  exists t, w, r3. auto using length_pos_nonempty.
Qed.

(** C8, as stated: a list item would be a line that matches [^[-*]\s+.+] or
    [^\d+\.\s+.+], so that a marker followed by white space only would not
    be one.  The lines ["- "] and ["1. "] do not match these patterns, and
    the converter makes a list of each. *)
Lemma list_line_classification_counterexample :
  matches spec_bullet_re "- " = false /\
  classify "- " = BulletList /\
  parse_markdown_to_doc_requests "- "
  = (NL, [createParagraphBullets 1 2 "BULLET_DISC_CIRCLE_SQUARE"]) /\
  matches spec_numbered_re "1. " = false /\
  classify "1. " = NumberedList /\
  parse_markdown_to_doc_requests "1. "
  = (NL, [createParagraphBullets 1 2 "NUMBERED_DECIMAL_ALPHA_ROMAN"]).
Proof. repeat split. Qed.

(** C8, amended: a line starts a bullet list run exactly when it matches
    [^[-*]\s+], that is when it is a marker and a white space followed by
    anything, possibly nothing, and a numbered list run exactly when it
    matches [^\d+\.\s+], that is when it is digits, a dot and a white space
    followed by anything; an iteration of the outer loop is one block; the
    run takes the following lines as long as they match and ends at the
    first that does not; and it appends exactly one bullet request over the
    text of the whole run, which is ordered for a numbered run and
    unordered for a bullet run. *)
Theorem list_line_classification :
  (forall line,
      (classify line = BulletList <-> matches bullet_re line = true) /\
      (matches bullet_re line = true <->
       exists c w rest,
         line = String c (String w rest) /\
         dash_or_star c = true /\ is_space w = true)) /\
  (forall line,
      (classify line = NumberedList <-> matches numbered_re line = true) /\
      (matches numbered_re line = true <->
       exists digits w rest,
         line = digits ++ String "." (String w rest) /\
         digits <> "" /\ all_chars is_digit digits = true /\
         is_space w = true)) /\
  (forall line ls st,
      parse_loop (line :: ls) st
      = parse_loop (snd (block_step line ls st))
                   (fst (block_step line ls st))) /\
  (forall line ls st,
      classify line = BulletList ->
      list_run bullet_re "BULLET_DISC_CIRCLE_SQUARE" line ls st) /\
  (forall line ls st,
      classify line = NumberedList ->
      list_run numbered_re "NUMBERED_DECIMAL_ALPHA_ROMAN" line ls st) /\
  (forall a b,
      ordered (createParagraphBullets a b "NUMBERED_DECIMAL_ALPHA_ROMAN")
      = true /\
      ordered (createParagraphBullets a b "BULLET_DISC_CIRCLE_SQUARE")
      = false).
Proof.
  split; [|split; [|split; [|split; [|split]]]].
  - intros line. split; [apply classify_bullet | apply matches_bullet_iff].
  - intros line.
    split; [apply classify_numbered | apply matches_numbered_iff].
  - apply parse_loop_step.
  - intros line ls st H. apply block_step_bullet. now apply classify_bullet.
  - intros line ls st H. apply block_step_numbered.
    now apply classify_numbered.
  - intros a b. split; reflexivity.
Qed.

(** The theorem at a numbered run of two lines followed by a paragraph,
    and at a bullet run of one line whose item is empty. *)
Lemma list_line_classification_witness :
  list_run numbered_re "NUMBERED_DECIMAL_ALPHA_ROMAN" "1. x" ["2. y"; "z"]
    init_state /\
  list_run bullet_re "BULLET_DISC_CIRCLE_SQUARE" "- " [""] init_state.
Proof.
  split.
  - apply (proj1 (proj2 (proj2 (proj2 (proj2 list_line_classification))))).
    reflexivity.
  - apply (proj1 (proj2 (proj2 (proj2 list_line_classification)))).
    reflexivity.
Defined.

(** ** Further properties: the checks of the arguments *)

(** A greedy repetition takes the whole run of characters of its class
    when the run stops at the end of the string, at a character outside
    the class or at the upper bound, and the rest of the pattern accepts
    what follows. *)
Lemma rep_item_greedy_exact cls lo hi k rest m : forall t n,
  all_chars cls t = true ->
  match hi with
  | None => True
  | Some h => (n + String.length t <= h)%nat
  end ->
  match rest with
  | "" => True
  | String c _ =>
      cls c = false \/ below hi (n + String.length t) = false
  end ->
  (lo <= n + String.length t)%nat ->
  k rest = Some m ->
  rep_item cls lo hi true k n (t ++ rest) = Some (t, m).
Proof.
  induction t as [|c t IH]; intros n Hall Hhi Hstop Hlo Hk.
  - simpl in *. rewrite Nat.add_0_r in *. apply Nat.leb_le in Hlo.
    destruct rest as [|a rest]; simpl; rewrite Hlo, Hk; [reflexivity|].
    destruct Hstop as [-> | ->]; [reflexivity | now rewrite andb_false_r].
  - simpl in Hall. apply andb_true_iff in Hall as [Hc Hall].
    change (String c t ++ rest) with (String c (t ++ rest)).
    cbn [rep_item]. rewrite Hc.
    assert (Hb : below hi n = true).
    { destruct hi as [h|]; [|reflexivity]. simpl in *.
      apply Nat.ltb_lt. lia. }
    rewrite Hb. cbn [andb].
    rewrite (IH (S n)); auto.
    + destruct hi; [simpl in *; lia | exact I].
    + destruct rest; [exact I|].
      simpl String.length in Hstop.
      replace (S n + String.length t)%nat
        with (n + S (String.length t))%nat by lia. exact Hstop.
    + simpl in Hlo. lia.
Qed.

Lemma id_char_not_nl : id_char nl = false.
Proof. reflexivity. Qed.

Lemma at_eol_iff s : at_eol s = true <-> s = "" \/ s = NL.
Proof.
  destruct s as [|c [|c' s]]; simpl.
  - tauto.
  - split.
    + intros H. apply Ascii.eqb_eq in H. subst. now right.
    + intros [H|H]; [discriminate|]. injection H as ->. reflexivity.
  - split; [discriminate | intros [H|H]; discriminate].
Qed.

(** X1. An identifier is accepted exactly when it is made of 10 to 100
    letters, digits, underscores and hyphens, possibly followed by one
    newline: the [$] of the pattern also matches before a final
    newline. *)
Theorem validate_google_id_iff : forall id_str,
  validate_google_id id_str = true <->
  exists body,
    (id_str = body \/ id_str = body ++ NL) /\
    (10 <= String.length body <= 100)%nat /\
    all_chars id_char body = true.
Proof.
  intros id_str. unfold validate_google_id. split.
  - destruct (String.eqb id_str ""); [discriminate|].
    unfold matches, re_match, google_id_re.
    destruct (re_exec _ id_str) as [m|] eqn:E; [intros _ | discriminate].
    apply re_exec_rep in E as (t & m' & rest & -> & Ht & Hlo & Hhi & E & _).
    simpl in E. destruct (at_eol rest) eqn:Heol; [|discriminate].
    apply at_eol_iff in Heol. exists t. split.
    + destruct Heol as [-> | ->]; [left; now rewrite append_empty_r | now right].
    + split; [|exact Ht]. split; [exact Hlo|].
      destruct Hhi as [-> | Hhi]; [simpl in Hlo; lia|].
      simpl in Hhi. apply Nat.ltb_lt in Hhi. lia.
  - intros (body & Hs & [Hlo Hhi] & Hall).
    assert (Hne : String.eqb id_str "" = false).
    { apply String.eqb_neq. intros ->.
      destruct Hs as [<- | Hs]; [simpl in Hlo; lia|].
      destruct body; [simpl in Hlo; lia | discriminate]. }
    rewrite Hne. unfold matches, re_match, google_id_re. cbn [re_exec].
    assert (exists rest, id_str = body ++ rest /\ at_eol rest = true
                         /\ match rest with
                            | "" => True
                            | String c _ => id_char c = false
                            end) as (rest & -> & Heol & Hstop).
    { destruct Hs as [-> | ->].
      - exists "". now rewrite append_empty_r.
      - exists NL. repeat split. }
    rewrite (rep_item_greedy_exact id_char 10 (Some 100%nat)
               (re_exec [Eol]) rest (MatchObj "" [])); auto.
    + destruct rest; [exact I | now left].
    + simpl. now rewrite Heol.
Qed.

(** The theorem at an identifier of ten letters followed by a newline. *)
Lemma validate_google_id_iff_witness :
  validate_google_id ("abcdefghij" ++ NL) = true.
Proof.
  apply (proj2 (validate_google_id_iff ("abcdefghij" ++ NL))).
  exists "abcdefghij". split; [now right|]. split; [simpl; lia | reflexivity].
Defined.

Lemma replace_quote_append s t :
  replace_quote (s ++ t) = replace_quote s ++ replace_quote t.
Proof.
  induction s as [|c s IH]; simpl; [reflexivity|].
  destruct (Ascii.eqb c quote); simpl; now rewrite IH.
Qed.

Lemma sanitize_query_string_eq value :
  sanitize_query_string value = replace_quote value.
Proof.
  unfold sanitize_query_string.
  destruct (String.eqb_spec value "") as [-> | _]; reflexivity.
Qed.

(** X2. In a sanitized string every quote comes right after a backslash:
    however the result is cut before one of its quotes, the part before
    ends with a backslash. *)
Theorem sanitize_query_string_quotes_escaped : forall value before after,
  sanitize_query_string value = before ++ String quote after ->
  exists before', before = before' ++ String backslash "".
Proof.
  intros value. rewrite sanitize_query_string_eq.
  induction value as [|c s IH]; intros before after H; simpl in H.
  - destruct before; discriminate.
  - destruct (Ascii.eqb_spec c quote) as [-> | Hc].
    + destruct before as [|b [|b' before]]; simpl in H.
      * discriminate.
      * injection H as <- _. exists "". reflexivity.
      * injection H as <- <- H. apply IH in H as (before' & ->).
        exists (String backslash (String quote before')). reflexivity.
    + destruct before as [|b before]; simpl in H.
      * injection H as -> _. contradiction.
      * injection H as <- H. apply IH in H as (before' & ->).
        exists (String c before'). reflexivity.
Qed.

(** The theorem at the string [it's]. *)
Lemma sanitize_query_string_quotes_escaped_witness :
  exists before', "it\" = before' ++ String backslash "".
Proof.
  apply (sanitize_query_string_quotes_escaped "it's" "it\" "s").
  reflexivity.
Defined.

(** X3. Sanitizing adds one character per quote, keeps the strings without
    quote as they are and only those, and works piece by piece. *)
Theorem sanitize_query_string_length : forall value,
  String.length (sanitize_query_string value)
  = (String.length value + count_quotes value)%nat /\
  (sanitize_query_string value = value <-> count_quotes value = 0%nat) /\
  (forall more,
      sanitize_query_string (value ++ more)
      = sanitize_query_string value ++ sanitize_query_string more).
Proof.
  intros value.
  assert (Hlen : forall s,
             String.length (replace_quote s)
             = (String.length s + count_quotes s)%nat).
  { induction s as [|c s IH]; simpl; [reflexivity|].
    destruct (Ascii.eqb c quote); simpl; rewrite IH; lia. }
  assert (Hid : forall s, count_quotes s = 0%nat -> replace_quote s = s).
  { induction s as [|c s IH]; simpl; [reflexivity|].
    destruct (Ascii.eqb c quote); [discriminate|].
    intros H. now rewrite IH. }
  rewrite !sanitize_query_string_eq. split; [apply Hlen|]. split.
  - split; [|apply Hid].
    intros H. apply (f_equal String.length) in H. rewrite Hlen in H. lia.
  - intros more. rewrite !sanitize_query_string_eq.
    apply replace_quote_append.
Qed.

Lemma id_char_no_quote s :
  all_chars id_char s = true -> count_quotes s = 0%nat.
Proof.
  induction s as [|c s IH]; simpl; [reflexivity|].
  intros H. apply andb_true_iff in H as [Hc Hs].
  destruct (Ascii.eqb_spec c quote) as [-> | _]; [discriminate | auto].
Qed.

Lemma count_quotes_append s t :
  count_quotes (s ++ t) = (count_quotes s + count_quotes t)%nat.
Proof. induction s as [|c s IH]; simpl; [reflexivity | rewrite IH; lia]. Qed.

Lemma valid_id_no_quote id_str :
  validate_google_id id_str = true -> count_quotes id_str = 0%nat.
Proof.
  intros H. apply validate_google_id_iff in H as (body & Hs & _ & Hall).
  apply id_char_no_quote in Hall.
  destruct Hs as [-> | ->]; [exact Hall|].
  rewrite count_quotes_append, Hall. reflexivity.
Qed.

(** X4. An identifier that passes the validation holds no quote, so that
    sanitizing leaves it as it is, and [list_files_impl] puts it between
    quotes unchanged: the query is ['<id>' in parents], followed, when a
    name filter is given, by [ and name contains '<sanitized filter>']. *)
Theorem list_files_query_valid_folder : forall folder_id query,
  validate_google_id folder_id = true ->
  sanitize_query_string folder_id = folder_id /\
  list_files_query (Some folder_id) query
  = inr (Some ("'" ++ folder_id ++ "' in parents"
               ++ (if truthy query
                   then " and name contains '"
                        ++ sanitize_query_string (arg_value query) ++ "'"
                   else ""))).
Proof.
  intros folder_id query Hvalid.
  assert (Hsan : sanitize_query_string folder_id = folder_id).
  { apply sanitize_query_string_length. now apply valid_id_no_quote. }
  split; [exact Hsan|].
  unfold list_files_query. cbn [arg_value truthy].
  rewrite Hvalid, Hsan. cbn [negb].
  assert (Hne : String.eqb folder_id "" = false).
  { unfold validate_google_id in Hvalid.
    destruct (String.eqb folder_id ""); [discriminate | reflexivity]. }
  rewrite Hne. cbn [negb andb].
  destruct (truthy query); cbn [app String.concat].
  - simpl. now rewrite append_assoc.
  - simpl. reflexivity.
Qed.

(** The theorem at an identifier of ten letters and the filter [it's]. *)
Lemma list_files_query_valid_folder_witness :
  sanitize_query_string "abcdefghij" = "abcdefghij" /\
  list_files_query (Some "abcdefghij") (Some "it's")
  = inr (Some ("'" ++ "abcdefghij" ++ "' in parents"
               ++ (if truthy (Some "it's")
                   then " and name contains '"
                        ++ sanitize_query_string (arg_value (Some "it's"))
                        ++ "'"
                   else ""))).
Proof.
  apply (list_files_query_valid_folder "abcdefghij" (Some "it's")).
  reflexivity.
Defined.

(** ** Further properties: the batches of the other tools *)








(** X7. For a valid document, [replace_google_doc_content_impl] sends at
    most one deletion and then the insertion of the new content at index
    1; a deletion starts at 1, is never empty, and stops one position
    before the end of the last element; there is one exactly when the
    document has at least two elements and the last one ends after
    position 2. *)
Theorem replace_google_doc_content_impl_sends :
  forall doc_id new_content content,
  validate_google_id doc_id = true ->
  exists deletions text,
    replace_google_doc_content_impl doc_id new_content content
    = Sent (deletions ++ [insertText 1 new_content])%list text /\
    (deletions = [] \/
     deletions = [deleteContentRange 1 (last content 0 - 1)]) /\
    (deletions <> [] <->
     (2 <= List.length content)%nat /\ 1 < last content 0 - 1).
Proof.
  intros doc_id new_content content Hvalid.
  unfold replace_google_doc_content_impl. rewrite Hvalid. cbn [negb].
  destruct (Nat.ltb_spec 1 (List.length content)) as [Hlen|Hlen].
  - destruct (Z.gtb_spec (last content 0 - 1) 1) as [Hend|Hend].
    + exists [deleteContentRange 1 (last content 0 - 1)]. eexists.
      split; [reflexivity|]. split; [now right|].
      split; [intros _; split; lia | discriminate].
    + exists []. eexists. split; [reflexivity|]. split; [now left|].
      split; [congruence | intros [_ H]; lia].
  - exists []. eexists. split; [reflexivity|]. split; [now left|].
    split; [congruence | intros [H _]; lia].
Qed.

(** The theorem at a document of two elements that ends at 20. *)
Lemma replace_google_doc_content_impl_sends_witness :
  exists deletions text,
    replace_google_doc_content_impl "abcdefghij" "new" [1; 20]
    = Sent (deletions ++ [insertText 1 "new"])%list text /\
    (deletions = [] \/
     deletions = [deleteContentRange 1 (last [1; 20] 0 - 1)]) /\
    (deletions <> [] <->
     (2 <= List.length [1; 20])%nat /\ 1 < last [1; 20] 0 - 1).
Proof.
  apply (replace_google_doc_content_impl_sends "abcdefghij" "new" [1; 20]).
  reflexivity.
Defined.

(** ** Further properties: the converter and its caller *)

Lemma block_text_ends_nl line ls st :
  exists body, block_text line ls st = body ++ NL.
Proof.
  unfold block_text. destruct (re_match heading_re line); [eauto|].
  destruct (matches bullet_re line); [eauto|].
  destruct (matches numbered_re line); eauto.
Qed.

(** After at least one line the buffer ends with a newline. *)
Lemma parse_loop_ends_nl line ls st :
  exists body, plain_text (parse_loop (line :: ls) st) = body ++ NL.
Proof.
  rewrite parse_loop_step.
  apply (parse_loop_invariant
           (fun _ st' => exists body, plain_text st' = body ++ NL)).
  - intros line' ls' st' (body & Hbody).
    destruct (block_step_spec line' ls' st') as (new & Hp & _).
    destruct (block_text_ends_nl line' ls' st') as (body' & Hb).
    exists (plain_text st' ++ body'). now rewrite Hp, Hb, append_assoc.
  - destruct (block_step_spec line ls st) as (new & Hp & _).
    destruct (block_text_ends_nl line ls st) as (body' & Hb).
    exists (plain_text st ++ body'). now rewrite Hp, Hb, append_assoc.
Qed.

Lemma split_nl_cons s : exists line ls, split_nl s = line :: ls.
Proof. unfold split_nl. destruct (split_first s) as [l ls]. eauto. Qed.

Lemma parse_ends_nl markdown :
  exists body, fst (parse_markdown_to_doc_requests markdown) = body ++ NL.
Proof.
  unfold parse_markdown_to_doc_requests, parse_state. cbn [fst].
  destruct (split_nl_cons markdown) as (line & ls & ->).
  apply parse_loop_ends_nl.
Qed.

Lemma folder_accepted_guard folder_id :
  truthy folder_id && negb (validate_google_id (arg_value folder_id))
  = negb (folder_accepted folder_id).
Proof.
  unfold folder_accepted. destruct (truthy folder_id);
    destruct (validate_google_id (arg_value folder_id)); reflexivity.
Qed.

(** What [markdown_to_google_doc_impl] sends for an accepted folder. *)
Lemma markdown_to_google_doc_impl_accepted title markdown folder_id doc_id :
  folder_accepted folder_id = true ->
  exists returned,
    markdown_to_google_doc_impl title markdown folder_id doc_id
    = Sent ([insertText 1 (fst (parse_markdown_to_doc_requests markdown))]
              :: (match snd (parse_markdown_to_doc_requests markdown) with
                  | [] => []
                  | _ => [map styleRequest
                            (snd (parse_markdown_to_doc_requests markdown))]
                  end))
           returned.
Proof.
  intros Hfolder. unfold markdown_to_google_doc_impl.
  rewrite folder_accepted_guard, Hfolder. cbn [negb].
  destruct (parse_ends_nl markdown) as (body & Hbody).
  destruct (parse_markdown_to_doc_requests markdown) as [p r].
  cbn [fst snd] in *. subst p.
  destruct (String.eqb_spec (body ++ NL) "") as [E|_]; [|eexists; reflexivity].
  destruct body; discriminate.
Qed.

(** X8. The converter never returns an empty text: for every input the
    text ends with a newline.  So, when the folder identifier is absent,
    empty or valid, [markdown_to_google_doc_impl] always sends the
    insertion of the whole text at index 1, as its first batch; the
    formatting is a second batch, sent exactly when there is a request,
    and all its ranges lie within the inserted characters, between 1 and
    1 + len(text).  When a folder identifier is given and is not valid,
    the tool returns the error text and sends nothing. *)
Theorem markdown_to_google_doc_impl_sends :
  forall title markdown folder_id doc_id,
  let plain := fst (parse_markdown_to_doc_requests markdown) in
  let requests := snd (parse_markdown_to_doc_requests markdown) in
  (exists body, plain = body ++ NL) /\
  Forall (fun r => 1 <= startIndex r /\ startIndex r <= endIndex r /\
                   endIndex r <= 1 + len plain) requests /\
  (folder_accepted folder_id = false ->
   markdown_to_google_doc_impl title markdown folder_id doc_id
   = ErrorText "Error: Invalid folder ID format") /\
  (folder_accepted folder_id = true ->
   exists returned,
     markdown_to_google_doc_impl title markdown folder_id doc_id
     = Sent ([insertText 1 plain]
               :: (match requests with
                   | [] => []
                   | _ => [map styleRequest requests]
                   end))
            returned).
Proof.
  intros title markdown folder_id doc_id plain requests.
  split; [apply parse_ends_nl|]. split; [|split].
  - destruct (cursor_inv_parse markdown) as [Hlen Hall].
    subst plain requests. unfold parse_markdown_to_doc_requests.
    cbn [fst snd]. eapply Forall_impl; [|exact Hall].
    cbn beta. intros; lia.
  - intros Hfolder. unfold markdown_to_google_doc_impl.
    now rewrite folder_accepted_guard, Hfolder.
  - apply markdown_to_google_doc_impl_accepted.
Qed.

(** The theorem at a folder identifier that is too short, and at a
    document of one bold word without a folder. *)
Lemma markdown_to_google_doc_impl_sends_witness :
  markdown_to_google_doc_impl "T" "**b**" (Some "short") "abcdefghij"
  = ErrorText "Error: Invalid folder ID format" /\
  exists returned,
    markdown_to_google_doc_impl "T" "**b**" None "abcdefghij"
    = Sent ([insertText 1 (fst (parse_markdown_to_doc_requests "**b**"))]
              :: (match snd (parse_markdown_to_doc_requests "**b**") with
                  | [] => []
                  | _ => [map styleRequest
                            (snd (parse_markdown_to_doc_requests "**b**"))]
                  end))
           returned.
Proof.
  split.
  - apply (proj1 (proj2 (proj2 (markdown_to_google_doc_impl_sends
                                  "T" "**b**" (Some "short") "abcdefghij")))).
    reflexivity.
  - apply (proj2 (proj2 (proj2 (markdown_to_google_doc_impl_sends
                                  "T" "**b**" None "abcdefghij")))).
    reflexivity.
Defined.

(** The relation of two requests of which the first ends before the second
    starts. *)
Lemma sorted_app (R : request -> request -> Prop) l1 l2 :
  StronglySorted R l1 -> StronglySorted R l2 ->
  (forall x y, In x l1 -> In y l2 -> R x y) ->
  StronglySorted R (l1 ++ l2).
Proof.
  induction l1 as [|a l1 IH]; intros H1 H2 H12; [exact H2|].
  apply StronglySorted_inv in H1 as [H1 Ha]. simpl. constructor.
  - apply IH; auto. intros x y Hx Hy. apply H12; simpl; auto.
  - apply Forall_app. split; [exact Ha|].
    apply Forall_forall. intros y Hy. apply H12; simpl; auto.
Qed.

(** The requests of one block follow one another. *)
Lemma block_step_sorted line ls st :
  exists new,
    format_requests (fst (block_step line ls st))
      = (format_requests st ++ new)%list /\
    StronglySorted (fun r1 r2 => endIndex r1 <= startIndex r2) new.
Proof.
  unfold block_step.
  destruct (re_match heading_re line) as [m|].
  { eexists. split; [reflexivity|]. repeat constructor. }
  destruct (matches bullet_re line).
  { destruct (collect_items bullet_re ls) as [items rest].
    eexists. split; [reflexivity|]. repeat constructor. }
  destruct (matches numbered_re line).
  { destruct (collect_items numbered_re ls) as [items rest].
    eexists. split; [reflexivity|]. repeat constructor. }
  cbn [fst]. rewrite emit_paragraph_eq. cbn [format_requests].
  destruct (process_inline_markdown_spec line (current_index st))
    as (new & Hnew & _ & _ & Hsp).
  exists new. rewrite Hnew. split; [reflexivity|].
  eapply spans_sorted; eauto.
Qed.

(** X9. The requests of the converter never overlap and come in the order
    of the document: of two requests of the returned list, the earlier
    one ends before the later one starts. *)
Theorem requests_in_document_order : forall markdown,
  StronglySorted (fun r1 r2 => endIndex r1 <= startIndex r2)
    (snd (parse_markdown_to_doc_requests markdown)).
Proof.
  intros markdown. unfold parse_markdown_to_doc_requests, parse_state.
  cbn [snd].
  pose (R := fun r1 r2 => endIndex r1 <= startIndex r2).
  assert (H : cursor_inv (parse_loop (split_nl markdown) init_state) /\
              StronglySorted R
                (format_requests (parse_loop (split_nl markdown) init_state))).
  { apply (parse_loop_invariant
             (fun _ st => cursor_inv st /\
                          StronglySorted R (format_requests st))).
    - intros line ls st [Hinv Hsorted].
      split; [now apply cursor_inv_step|].
      destruct (block_step_spec line ls st) as (new & _ & _ & Hf & Hnew).
      destruct (block_step_sorted line ls st) as (new' & Hf' & Hs').
      rewrite Hf in Hf'. apply app_inv_head in Hf'. subst new'.
      rewrite Hf. apply sorted_app; auto.
      intros x y Hx Hy. destruct Hinv as [_ Hall].
      rewrite Forall_forall in Hall, Hnew.
      specialize (Hall x Hx). specialize (Hnew y Hy). unfold R. lia.
    - split; [split; [reflexivity | constructor] | constructor]. }
  exact (proj2 H).
Qed.

(** Induction on the iterations of the scanning loop. *)
Lemma inline_loop_induction (P : string -> Prop) :
  P "" ->
  (forall c s format_type m,
      first_match patterns (String c s) = Some (format_type, m) ->
      P (drop (String.length (group0 m)) (String c s)) -> P (String c s)) ->
  (forall c s, first_match patterns (String c s) = None ->
               P s -> P (String c s)) ->
  forall s, P s.
Proof.
  intros Hnil Hmatch Hcopy s.
  remember (String.length s) as n eqn:Hn. revert s Hn.
  induction n as [n IH] using lt_wf_ind. intros [|c s] Hn; [exact Hnil|].
  destruct (first_match patterns (String c s)) as [[format_type m]|] eqn:E.
  - apply (Hmatch c s format_type m E).
    apply (IH (String.length (drop (String.length (group0 m)) (String c s))));
      [|reflexivity].
    pose proof (first_match_patterns_nonempty _ _ _ E).
    rewrite length_drop. simpl String.length in *. lia.
  - apply (Hcopy c s E). apply (IH (String.length s)); [|reflexivity].
    simpl in Hn. lia.
Qed.

Lemma inline_request_shift format_type m start d :
  inline_request format_type m (start + d)
  = shift d (inline_request format_type m start).
Proof.
  unfold inline_request. destruct (String.eqb format_type "link"); simpl;
    f_equal; lia.
Qed.

Lemma inline_loop_shift d s : forall offset result reqs,
  inline_loop (offset + d) s result (map (shift d) reqs)
  = (fst (inline_loop offset s result reqs),
     map (shift d) (snd (inline_loop offset s result reqs))).
Proof.
  induction s as [| c s format_type m E IH | c s E IH]
    using inline_loop_induction; intros offset result reqs.
  - now rewrite !inline_loop_equation_1.
  - rewrite !inline_loop_cons, E.
    replace (offset + d + len result) with (offset + len result + d) by lia.
    rewrite inline_request_shift.
    change [shift d (inline_request format_type m (offset + len result))]
      with (map (shift d)
              [inline_request format_type m (offset + len result)]).
    rewrite <- map_app. apply IH.
  - rewrite !inline_loop_cons, E. apply IH.
Qed.

(** X10. The inline formatter does not depend on the base index but for
    the positions of its requests: at the base index [base_index + d] it
    returns the same text, and the same requests moved by [d]. *)
Theorem process_inline_markdown_shift : forall text base_index d,
  process_inline_markdown text (base_index + d)
  = (fst (process_inline_markdown text base_index),
     map (shift d) (snd (process_inline_markdown text base_index))).
Proof.
  intros text base_index d. unfold process_inline_markdown.
  apply (inline_loop_shift d text base_index "" []).
Qed.

Lemma span_source_longer k inner url :
  (String.length inner + 2 <= String.length (span_source k inner url))%nat.
Proof.
  destruct k as [|[|[|[|k]]]]; simpl; rewrite ?length_append; simpl;
    rewrite ?length_append; simpl; lia.
Qed.

(** The loop appends a text that is not longer than what it reads, and as
    long only when it appends no request. *)
Lemma inline_loop_length offset s : forall result reqs,
  exists text new,
    inline_loop offset s result reqs = (result ++ text, (reqs ++ new)%list) /\
    (String.length text <= String.length s)%nat /\
    (new = [] -> text = s) /\
    (new <> [] -> (String.length text < String.length s)%nat).
Proof.
  induction s as [| c s format_type m E IH | c s E IH]
    using inline_loop_induction; intros result reqs.
  - exists "", []. rewrite inline_loop_equation_1, append_empty_r, app_nil_r.
    repeat split; auto. congruence.
  - rewrite inline_loop_cons, E.
    apply first_match_some in E as (k & re & Hk & Hm & _).
    destruct (pattern_match_shape _ _ _ _ _ Hk Hm)
      as (inner & url & rest & Hs & Hg0 & Hg1 & _).
    assert (Hdrop : drop (String.length (group0 m)) (String c s) = rest)
      by (rewrite Hs, Hg0; apply drop_append).
    rewrite Hdrop in *.
    destruct (IH (result ++ group m 1)
                 (reqs ++ [inline_request format_type m
                             (offset + len result)])%list)
      as (text & new & Heq & Hlen & _).
    exists (inner ++ text),
      (inline_request format_type m (offset + len result) :: new).
    rewrite Heq, Hg1, append_assoc, <- app_assoc.
    split; [reflexivity|].
    pose proof (span_source_longer k inner url) as Hspan.
    apply (f_equal String.length) in Hs. rewrite length_append in Hs.
    rewrite length_append.
    split; [lia|]. split; [discriminate | intros _; lia].
  - rewrite inline_loop_cons, E.
    destruct (IH (result ++ String c "") reqs)
      as (text & new & Heq & Hlen & Hsame & Hless).
    exists (String c text), new. rewrite Heq, append_assoc.
    split; [reflexivity|]. simpl String.length.
    split; [lia|]. split.
    + intros Hnew. now rewrite (Hsame Hnew).
    + intros Hnew. specialize (Hless Hnew). lia.
Qed.

(** X11. The inline formatter only removes characters: the text it
    returns is not longer than the line, and it is the line itself exactly
    when no request is returned. *)
Theorem process_inline_markdown_length : forall text base_index,
  (String.length (fst (process_inline_markdown text base_index))
   <= String.length text)%nat /\
  (snd (process_inline_markdown text base_index) = [] <->
   fst (process_inline_markdown text base_index) = text).
Proof.
  intros text base_index. unfold process_inline_markdown.
  destruct (inline_loop_length base_index text "" [])
    as (out & new & Heq & Hlen & Hsame & Hless).
  rewrite Heq. cbn [fst snd append app]. split; [exact Hlen|]. split.
  - exact Hsame.
  - intros ->. destruct new as [|r new]; [reflexivity|].
    assert (H : (String.length text < String.length text)%nat)
      by (apply Hless; discriminate).
    lia.
Qed.

(** A pattern can match only at a character that opens one. *)
Lemma first_match_marker c s format_type m :
  first_match patterns (String c s) = Some (format_type, m) ->
  is_marker c = true.
Proof.
  intros E. apply first_match_some in E as (k & re & Hk & Hm & _).
  destruct k as [|[|[|[|[|k]]]]]; simpl in Hk;
    try (destruct k; discriminate); injection Hk as <- <-;
    apply re_exec_first_char in Hm as (c' & s' & [= <- <-] & Hc);
    unfold chr in Hc; apply Ascii.eqb_eq in Hc; subst c; reflexivity.
Qed.

Lemma no_marker_no_span s :
  all_chars (fun c => negb (is_marker c)) s = true ->
  no_span_anywhere s = true.
Proof.
  induction s as [|c s IH]; [reflexivity|].
  cbn [all_chars no_span_anywhere]. intros H.
  apply andb_true_iff in H as [Hc Hs].
  destruct (first_match patterns (String c s)) as [[format_type m]|] eqn:E.
  - apply first_match_marker in E. rewrite E in Hc. discriminate.
  - now apply IH.
Qed.

(** X12. A text without any of the characters [*], [_] and [[] goes
    through the inline formatter unchanged and gives no request; so the
    formatter changes nothing when run again on such an output. *)
Theorem process_inline_markdown_plain : forall text base_index,
  all_chars (fun c => negb (is_marker c)) text = true ->
  process_inline_markdown text base_index = (text, []).
Proof.
  intros text base_index H. unfold process_inline_markdown.
  rewrite inline_loop_verbatim; [reflexivity | now apply no_marker_no_span].
Qed.

(** The theorem at a line with a dash and a hash. *)
Lemma process_inline_markdown_plain_witness :
  process_inline_markdown "hello - # world" 1 = ("hello - # world", []).
Proof.
  apply (process_inline_markdown_plain "hello - # world" 1). reflexivity.
Defined.

(** ** Further properties: what the converter does with each kind of
    line *)

Lemma classify_paragraph line :
  classify line = Paragraph ->
  re_match heading_re line = None /\ matches bullet_re line = false /\
  matches numbered_re line = false.
Proof.
  unfold classify. destruct (re_match heading_re line); [discriminate|].
  destruct (matches bullet_re line); [discriminate|].
  destruct (matches numbered_re line); [discriminate | auto].
Qed.

Lemma prose_line_inv line :
  prose_line line = true ->
  classify line = Paragraph /\
  all_chars (fun c => negb (is_marker c)) line = true.
Proof.
  unfold prose_line. destruct (classify line); try discriminate. auto.
Qed.

(** Lines of prose go to the buffer one by one, each with its newline, and
    add no request. *)
Lemma parse_loop_prose : forall lines st,
  forallb prose_line lines = true ->
  exists text,
    parse_loop lines st
    = State (plain_text st ++ text) (format_requests st)
            (current_index st + len text) /\
    match lines with
    | [] => text = ""
    | _ => text = String.concat NL lines ++ NL
    end.
Proof.
  induction lines as [|line ls IH]; intros st H.
  - exists "". cbn [parse_loop]. rewrite append_empty_r.
    unfold len; simpl. rewrite Z.add_0_r. destruct st; auto.
  - cbn [forallb] in H. apply andb_true_iff in H as [Hline Hls].
    apply prose_line_inv in Hline as [Hpar Hplain].
    apply classify_paragraph in Hpar as (Hh & Hb & Hn).
    cbn [parse_loop]. rewrite Hh, Hb, Hn.
    destruct (IH (emit_paragraph line st) Hls) as (text & Heq & Htext).
    rewrite Heq, emit_paragraph_eq.
    unfold process_inline_markdown.
    rewrite (inline_loop_verbatim _ _ _ _ (no_marker_no_span _ Hplain)).
    cbn [fst snd plain_text format_requests current_index append].
    rewrite app_nil_r.
    exists (line ++ NL ++ text). split.
    + f_equal; [now rewrite !append_assoc|].
      rewrite !len_append. change (len NL) with 1. lia.
    + destruct ls as [|l ls]; [subst text; reflexivity|].
      subst text.
      change (String.concat NL (line :: l :: ls))
        with (line ++ NL ++ String.concat NL (l :: ls)).
      now rewrite !append_assoc.
Qed.

(** X13. A document of prose comes out as it went in, with one more
    newline and without any request: this holds when every line is a
    paragraph (neither a heading nor a list item) and has none of the
    characters [*], [_] and [[]. *)
Theorem prose_round_trip : forall markdown,
  forallb prose_line (split_nl markdown) = true ->
  parse_markdown_to_doc_requests markdown = (markdown ++ NL, []).
Proof.
  intros markdown H.
  unfold parse_markdown_to_doc_requests, parse_state.
  destruct (parse_loop_prose _ init_state H) as (text & -> & Htext).
  cbn [plain_text format_requests init_state append].
  destruct (split_nl_cons markdown) as (line & ls & E).
  rewrite E in Htext. rewrite <- E, split_nl_join in Htext. now subst.
Qed.

(** The theorem at two lines of prose separated by an empty line. *)
Lemma prose_round_trip_witness :
  parse_markdown_to_doc_requests ("Dear all," ++ NL ++ NL ++ "see you at 5.")
  = (("Dear all," ++ NL ++ NL ++ "see you at 5.") ++ NL, []).
Proof.
  apply (prose_round_trip ("Dear all," ++ NL ++ NL ++ "see you at 5.")).
  reflexivity.
Defined.

Lemma split_first_line s :
  all_chars dot s = true -> split_first s = (s, []).
Proof.
  induction s as [|c s IH]; [reflexivity|]. simpl. intros H.
  apply andb_true_iff in H as [Hc Hs]. rewrite (IH Hs).
  unfold dot in Hc. destruct (Ascii.eqb c nl); [discriminate | reflexivity].
Qed.

Lemma split_first_append l s :
  all_chars dot l = true ->
  split_first (l ++ String nl s) = (l, split_nl s).
Proof.
  induction l as [|c l IH]; intros H.
  - simpl. unfold split_nl. destruct (split_first s). reflexivity.
  - simpl in H. apply andb_true_iff in H as [Hc Hl].
    change (String c l ++ String nl s) with (String c (l ++ String nl s)).
    cbn [split_first]. rewrite (IH Hl).
    unfold dot in Hc. destruct (Ascii.eqb c nl); [discriminate | reflexivity].
Qed.

(** [str.split] undoes [str.join] on lines without newline. *)
Lemma split_nl_concat lines :
  lines <> [] ->
  Forall (fun l => all_chars dot l = true) lines ->
  split_nl (String.concat NL lines) = lines.
Proof.
  induction lines as [|l [|l' ls] IH]; intros Hne Hall; [congruence| |].
  - inversion_clear Hall as [|? ? Hl _]. simpl. unfold split_nl.
    now rewrite split_first_line.
  - inversion_clear Hall as [|? ? Hl Hrest].
    change (String.concat NL (l :: l' :: ls))
      with (l ++ String nl (String.concat NL (l' :: ls))).
    unfold split_nl at 1. rewrite (split_first_append _ _ Hl).
    rewrite IH; [reflexivity | discriminate | exact Hrest].
Qed.

Lemma length_repeat_char c n : String.length (repeat_char c n) = n.
Proof. induction n as [|n IH]; simpl; [reflexivity | now rewrite IH]. Qed.

Lemma all_chars_repeat_char c n : all_chars (chr c) (repeat_char c n) = true.
Proof.
  induction n as [|n IH]; simpl; [reflexivity|].
  unfold chr at 1. now rewrite Ascii.eqb_refl.
Qed.

Lemma all_chars_impl (p q : ascii -> bool) s :
  (forall c, p c = true -> q c = true) ->
  all_chars p s = true -> all_chars q s = true.
Proof.
  intros Hpq. induction s as [|c s IH]; simpl; [reflexivity|].
  intros H. apply andb_true_iff in H as [Hc Hs].
  now rewrite (Hpq c Hc), IH.
Qed.

(** The match of the heading pattern on hashes, white space and a text
    that does not start with a white space. *)
Lemma heading_match_exact level ws text :
  (1 <= level <= 6)%nat ->
  ws <> "" -> all_chars is_space ws = true ->
  text <> "" -> all_chars dot text = true -> no_leading_space text = true ->
  re_match heading_re (repeat_char "#" level ++ ws ++ text)
  = Some (MatchObj (repeat_char "#" level ++ ws ++ text)
                   [repeat_char "#" level; text]).
Proof.
  intros Hlevel Hws Hspace Htext Hdot Hlead.
  unfold re_match, heading_re, plus, grp_plus. cbn [re_exec].
  rewrite (rep_item_greedy_exact (chr "#") 1 (Some 6%nat) _ (ws ++ text)
             (extend false ws (extend true text (MatchObj "" [])))).
  - unfold extend. cbn [group0 groups]. now rewrite append_empty_r.
  - apply all_chars_repeat_char.
  - rewrite length_repeat_char. simpl. lia.
  - destruct ws as [|c ws]; [congruence|]. left.
    simpl in Hspace. apply andb_true_iff in Hspace as [Hc _].
    unfold chr. destruct (Ascii.eqb_spec c "#") as [-> | _];
      [discriminate | reflexivity].
  - rewrite length_repeat_char. simpl. lia.
  - rewrite (rep_item_greedy_exact is_space 1 None _ text
               (extend true text (MatchObj "" []))); auto.
    + destruct text as [|c text]; [congruence|]. left.
      simpl in Hlead. now apply negb_true_iff in Hlead.
    + destruct ws; [congruence | simpl; lia].
    + rewrite <- (append_empty_r text) at 1.
      rewrite (rep_item_greedy_exact dot 1 None _ "" (MatchObj "" []));
        auto.
      destruct text; [congruence | simpl; lia].
Qed.

Lemma str_of_Z_level level :
  (1 <= level <= 6)%nat -> str_of_Z (Z.of_nat level) = str_of_nat level.
Proof.
  intros H.
  assert (level = 1 \/ level = 2 \/ level = 3 \/ level = 4 \/ level = 5
          \/ level = 6)%nat as [-> | [-> | [-> | [-> | [-> | ->]]]]] by lia;
    reflexivity.
Qed.

(** The conversion of a heading line. *)
Lemma parse_heading_line : forall level ws text,
  (1 <= level <= 6)%nat ->
  ws <> "" -> all_chars (fun c => is_space c && dot c) ws = true ->
  text <> "" -> all_chars dot text = true -> no_leading_space text = true ->
  parse_markdown_to_doc_requests (repeat_char "#" level ++ ws ++ text)
  = (text ++ NL,
     [updateParagraphStyle 1 (1 + len (text ++ NL))
        ("HEADING_" ++ str_of_nat level)]).
Proof.
  intros level ws text Hlevel Hws Hspace Htext Hdot Hlead.
  assert (Hsp : all_chars is_space ws = true).
  { eapply all_chars_impl; [|exact Hspace].
    intros c H. now apply andb_true_iff in H as [H _]. }
  assert (Hwd : all_chars dot ws = true).
  { eapply all_chars_impl; [|exact Hspace].
    intros c H. now apply andb_true_iff in H as [_ H]. }
  assert (Hline : all_chars dot (repeat_char "#" level ++ ws ++ text) = true).
  { rewrite !all_chars_append, Hwd, Hdot, !andb_true_r.
    eapply all_chars_impl; [|apply (all_chars_repeat_char "#" level)].
    intros c H. unfold chr in H. apply Ascii.eqb_eq in H. now subst. }
  unfold parse_markdown_to_doc_requests, parse_state, split_nl.
  rewrite (split_first_line _ Hline). cbn [parse_loop].
  rewrite (heading_match_exact level ws text); auto.
  unfold emit_heading, group. cbn.
  now rewrite length_repeat_char.
Qed.

(** X14. A heading line, made of 1 to 6 hashes, white space and a text, is
    converted to the text and a newline, with one paragraph style over
    them named after the number of hashes.  The text goes to the buffer as
    it is written: inline markup in a heading is not formatted. *)
Theorem heading_line : forall level ws text,
  (1 <= level <= 6)%nat ->
  ws <> "" -> all_chars (fun c => is_space c && dot c) ws = true ->
  text <> "" -> all_chars dot text = true -> no_leading_space text = true ->
  parse_markdown_to_doc_requests (repeat_char "#" level ++ ws ++ text)
  = (text ++ NL,
     [updateParagraphStyle 1 (1 + len (text ++ NL))
        ("HEADING_" ++ str_of_nat level)]).
Proof. exact parse_heading_line. Qed.

(** The theorem at a heading of level 3 whose text holds bold markup. *)
Lemma heading_line_witness :
  parse_markdown_to_doc_requests (repeat_char "#" 3 ++ " " ++ "a **b**")
  = ("a **b**" ++ NL,
     [updateParagraphStyle 1 (1 + len ("a **b**" ++ NL))
        ("HEADING_" ++ str_of_nat 3)]).
Proof.
  apply (heading_line 3 " " "a **b**");
    first [lia | discriminate | reflexivity].
Defined.

Lemma bullet_match_exact marker item :
  dash_or_star marker = true -> no_leading_space item = true ->
  re_match bullet_re (bullet_line marker item)
  = Some (MatchObj (String marker " ") []).
Proof.
  intros Hm Hlead. unfold re_match, bullet_re, bullet_line.
  rewrite (re_exec_one _ _ _ _ Hm). unfold plus. cbn [re_exec].
  change (String " " item) with (" " ++ item).
  rewrite (rep_item_greedy_exact is_space 1 None _ item (MatchObj "" []));
    auto.
  destruct item as [|c item]; [exact I|]. left.
  simpl in Hlead. now apply negb_true_iff in Hlead.
Qed.

Lemma bullet_line_item marker item :
  dash_or_star marker = true -> no_leading_space item = true ->
  matches bullet_re (bullet_line marker item) = true /\
  re_sub_empty bullet_re (bullet_line marker item) = item.
Proof.
  intros Hm Hlead. unfold matches, re_sub_empty.
  rewrite (bullet_match_exact _ _ Hm Hlead). split; reflexivity.
Qed.

Lemma collect_items_bullet_lines marker items :
  dash_or_star marker = true ->
  Forall (fun item => no_leading_space item = true) items ->
  collect_items bullet_re (map (bullet_line marker) items) = (items, []).
Proof.
  intros Hm. induction items as [|item items IH]; intros Hall;
    [reflexivity|].
  inversion_clear Hall as [|? ? Hitem Hrest]. cbn [map collect_items].
  destruct (bullet_line_item marker item Hm Hitem) as [-> ->].
  now rewrite (IH Hrest).
Qed.

(** The conversion of the lines of a bullet list. *)
Lemma parse_bullet_lines : forall marker items,
  dash_or_star marker = true ->
  items <> [] ->
  Forall (fun item => all_chars dot item = true) items ->
  Forall (fun item => no_leading_space item = true) items ->
  parse_markdown_to_doc_requests
    (String.concat NL (map (bullet_line marker) items))
  = (String.concat NL items ++ NL,
     [createParagraphBullets 1 (1 + len (String.concat NL items ++ NL))
        "BULLET_DISC_CIRCLE_SQUARE"]).
Proof.
  intros marker items Hm Hne Hdot Hlead.
  assert (Hmdot : dot marker = true).
  { unfold dash_or_star in Hm. apply orb_true_iff in Hm as [H|H];
      apply Ascii.eqb_eq in H; subst; reflexivity. }
  unfold parse_markdown_to_doc_requests, parse_state.
  rewrite split_nl_concat.
  - destruct items as [|item items]; [congruence|].
    inversion_clear Hlead as [|? ? Hitem Hrest]. cbn [map].
    rewrite parse_loop_step. unfold block_step.
    destruct (bullet_line_item marker item Hm Hitem) as [Hmatch Hsub].
    rewrite (bullet_not_heading _ Hmatch), Hmatch, Hsub.
    rewrite (collect_items_bullet_lines marker items Hm Hrest).
    reflexivity.
  - destruct items; [congruence | discriminate].
  - apply Forall_map. eapply Forall_impl; [|exact Hdot].
    intros item H. unfold bullet_line. simpl. now rewrite Hmdot, H.
Qed.

(** X15. A bullet list, one line per item made of the marker [-] or [*],
    a space and the item, is converted to the items joined and closed by
    newlines, with one unordered bullet request over them.  The items go
    to the buffer as they are written: inline markup in an item is not
    formatted. *)
Theorem bullet_lines : forall marker items,
  dash_or_star marker = true ->
  items <> [] ->
  Forall (fun item => all_chars dot item = true) items ->
  Forall (fun item => no_leading_space item = true) items ->
  parse_markdown_to_doc_requests
    (String.concat NL (map (bullet_line marker) items))
  = (String.concat NL items ++ NL,
     [createParagraphBullets 1 (1 + len (String.concat NL items ++ NL))
        "BULLET_DISC_CIRCLE_SQUARE"]).
Proof. exact parse_bullet_lines. Qed.

(** The theorem at a list of two items, the second with markup. *)
Lemma bullet_lines_witness :
  parse_markdown_to_doc_requests
    (String.concat NL (map (bullet_line "-") ["a"; "*b*"]))
  = (String.concat NL ["a"; "*b*"] ++ NL,
     [createParagraphBullets 1 (1 + len (String.concat NL ["a"; "*b*"] ++ NL))
        "BULLET_DISC_CIRCLE_SQUARE"]).
Proof.
  apply (bullet_lines "-" ["a"; "*b*"]).
  - reflexivity.
  - discriminate.
  - repeat constructor.
  - repeat constructor.
Defined.

(** X16. For a text that is not empty, holds no newline and does not
    start with a white space, a level from 1 to 6, a valid document and an
    accepted folder: inserting the heading at the start of a document with
    [insert_heading_impl] sends the requests that
    [markdown_to_google_doc_impl] sends, batch after batch, for the same
    heading written in markdown, as hashes, a space and the text: the same
    text inserted at index 1 and the same paragraph style over the same
    range. *)
Theorem insert_heading_agrees_with_converter :
  forall doc_id level text last_end_index title folder_id new_doc_id,
  validate_google_id doc_id = true ->
  folder_accepted folder_id = true ->
  (1 <= level <= 6)%nat ->
  text <> "" -> all_chars dot text = true -> no_leading_space text = true ->
  exists batches returned returned',
    markdown_to_google_doc_impl title
      (repeat_char "#" level ++ " " ++ text) folder_id new_doc_id
    = Sent batches returned' /\
    insert_heading_impl doc_id text (JInt (Z.of_nat level)) None false
      last_end_index
    = Sent (List.concat batches) returned.
Proof.
  intros doc_id level text last_end_index title folder_id new_doc_id
    Hvalid Hfolder Hlevel Htext Hdot Hlead.
  destruct (markdown_to_google_doc_impl_accepted title
              (repeat_char "#" level ++ " " ++ text) folder_id new_doc_id
              Hfolder) as (returned' & ->).
  rewrite (parse_heading_line level " " text); auto; [|discriminate].
  cbn [fst snd map]. eexists. eexists. exists returned'.
  split; [reflexivity|]. cbn [List.concat app].
  unfold insert_heading_impl. rewrite Hvalid. cbn [negb number_ltb number_gtb].
  assert (E : (Z.of_nat level <? 1) || (Z.of_nat level >? 6) = false).
  { apply orb_false_iff. split; [apply Z.ltb_ge; lia|].
    rewrite Z.gtb_ltb. apply Z.ltb_ge. lia. }
  rewrite E.
  assert (level = 1 \/ level = 2 \/ level = 3 \/ level = 4 \/ level = 5
          \/ level = 6)%nat as [-> | [-> | [-> | [-> | [-> | ->]]]]] by lia;
    reflexivity.
Qed.

(** The theorem at a heading of level 2. *)
Lemma insert_heading_agrees_with_converter_witness :
  exists batches returned returned',
    markdown_to_google_doc_impl "T" (repeat_char "#" 2 ++ " " ++ "Title")
      None "klmnopqrst"
    = Sent batches returned' /\
    insert_heading_impl "abcdefghij" "Title" (JInt (Z.of_nat 2)) None false 0
    = Sent (List.concat batches) returned.
Proof.
  apply (insert_heading_agrees_with_converter "abcdefghij" 2 "Title" 0
           "T" None "klmnopqrst");
    first [lia | discriminate | reflexivity].
Defined.

(** X17. For a non-empty list of items that hold no newline and do not
    start with a white space, a valid document and an accepted folder:
    inserting the bullet list at the start of a document with
    [insert_bullet_list_impl] sends the requests that
    [markdown_to_google_doc_impl] sends, batch after batch, for the same
    items written in markdown, one line per item made of the marker, a
    space and the item: the same text inserted at index 1 and the same
    bullet request over the same range. *)
Theorem insert_bullet_list_agrees_with_converter :
  forall doc_id marker items last_end_index title folder_id new_doc_id,
  validate_google_id doc_id = true ->
  folder_accepted folder_id = true ->
  dash_or_star marker = true ->
  items <> [] ->
  Forall (fun item => all_chars dot item = true) items ->
  Forall (fun item => no_leading_space item = true) items ->
  exists batches returned returned',
    markdown_to_google_doc_impl title
      (String.concat NL (map (bullet_line marker) items)) folder_id
      new_doc_id
    = Sent batches returned' /\
    insert_bullet_list_impl doc_id items false None false last_end_index
    = Sent (List.concat batches) returned.
Proof.
  intros doc_id marker items last_end_index title folder_id new_doc_id
    Hvalid Hfolder Hm Hne Hdot Hlead.
  destruct (markdown_to_google_doc_impl_accepted title
              (String.concat NL (map (bullet_line marker) items))
              folder_id new_doc_id Hfolder) as (returned' & ->).
  rewrite (parse_bullet_lines marker items); auto.
  cbn [fst snd map]. eexists. eexists. exists returned'.
  split; [reflexivity|]. cbn [List.concat app].
  unfold insert_bullet_list_impl. rewrite Hvalid. cbn [negb].
  destruct items as [|item items]; [congruence|]. reflexivity.
Qed.

(** The theorem at a list of two items. *)
Lemma insert_bullet_list_agrees_with_converter_witness :
  exists batches returned returned',
    markdown_to_google_doc_impl "T"
      (String.concat NL (map (bullet_line "*") ["a"; "b"])) None
      "klmnopqrst"
    = Sent batches returned' /\
    insert_bullet_list_impl "abcdefghij" ["a"; "b"] false None false 0
    = Sent (List.concat batches) returned.
Proof.
  apply (insert_bullet_list_agrees_with_converter "abcdefghij" "*"
           ["a"; "b"] 0 "T" None "klmnopqrst").
  - reflexivity.
  - reflexivity.
  - reflexivity.
  - discriminate.
  - repeat constructor.
  - repeat constructor.
Defined.

(** The same for a pattern that starts with a greedy repetition. *)
Lemma re_exec_greedy_exact cap cls lo hi p t rest m :
  all_chars cls t = true ->
  match hi with
  | None => True
  | Some h => (String.length t <= h)%nat
  end ->
  match rest with
  | "" => True
  | String c _ => cls c = false \/ below hi (String.length t) = false
  end ->
  (lo <= String.length t)%nat ->
  re_exec p rest = Some m ->
  re_exec (Rep cap cls lo hi true :: p) (t ++ rest) = Some (extend cap t m).
Proof.
  intros Hall Hhi Hstop Hlo Hk. cbn [re_exec].
  now rewrite (rep_item_greedy_exact cls lo hi (re_exec p) rest m t 0).
Qed.

Lemma numbered_match_exact digits item :
  digits <> "" -> all_chars is_digit digits = true ->
  no_leading_space item = true ->
  re_match numbered_re (numbered_line (digits, item))
  = Some (MatchObj (digits ++ ". ") []).
Proof.
  intros Hne Hd Hlead. unfold re_match, numbered_re, numbered_line.
  cbn [fst snd]. unfold plus at 1.
  rewrite (re_exec_greedy_exact false is_digit 1 None
             [lit "."; plus is_space] digits
             (String "." (String " " item))
             (extend false "." (extend false " " (MatchObj "" [])))).
  - reflexivity.
  - exact Hd.
  - exact I.
  - now left.
  - destruct digits; [congruence | simpl; lia].
  - change (lit ".") with (one (chr ".")).
    rewrite re_exec_one by reflexivity. unfold plus.
    change (String " " item) with (" " ++ item).
    rewrite (re_exec_greedy_exact false is_space 1 None [] " " item
               (MatchObj "" [])); auto.
    destruct item as [|c item]; [exact I|]. left.
    simpl in Hlead. now apply negb_true_iff in Hlead.
Qed.

Lemma numbered_line_item digits item :
  digits <> "" -> all_chars is_digit digits = true ->
  no_leading_space item = true ->
  matches numbered_re (numbered_line (digits, item)) = true /\
  re_sub_empty numbered_re (numbered_line (digits, item)) = item.
Proof.
  intros Hne Hd Hlead. unfold matches, re_sub_empty.
  rewrite (numbered_match_exact _ _ Hne Hd Hlead). cbn [group0].
  split; [reflexivity|]. unfold numbered_line. cbn [fst snd].
  change (String "." (String " " item)) with (". " ++ item).
  rewrite <- append_assoc. apply drop_append.
Qed.

Lemma collect_items_numbered_lines entries :
  Forall numbered_entry entries ->
  collect_items numbered_re (map numbered_line entries)
  = (map snd entries, []).
Proof.
  induction entries as [|[digits item] entries IH]; intros Hall;
    [reflexivity|].
  inversion_clear Hall as [|? ? (Hne & Hd & _ & Hlead) Hrest].
  cbn [map collect_items snd]. cbn [fst snd] in *.
  destruct (numbered_line_item digits item Hne Hd Hlead) as [-> ->].
  now rewrite (IH Hrest).
Qed.

(** The conversion of the lines of a numbered list. *)
Lemma parse_numbered_lines entries :
  entries <> [] -> Forall numbered_entry entries ->
  parse_markdown_to_doc_requests
    (String.concat NL (map numbered_line entries))
  = (String.concat NL (map snd entries) ++ NL,
     [createParagraphBullets 1
        (1 + len (String.concat NL (map snd entries) ++ NL))
        "NUMBERED_DECIMAL_ALPHA_ROMAN"]).
Proof.
  intros Hne Hall.
  unfold parse_markdown_to_doc_requests, parse_state.
  rewrite split_nl_concat.
  - destruct entries as [|[digits item] entries]; [congruence|].
    inversion_clear Hall as [|? ? (Hd0 & Hd & _ & Hlead) Hrest].
    cbn [fst snd] in *. cbn [map snd].
    rewrite parse_loop_step. unfold block_step.
    destruct (numbered_line_item digits item Hd0 Hd Hlead) as [Hmatch Hsub].
    rewrite (numbered_not_heading _ Hmatch), (numbered_not_bullet _ Hmatch).
    rewrite Hmatch, Hsub.
    rewrite (collect_items_numbered_lines entries Hrest).
    reflexivity.
  - destruct entries; [congruence | discriminate].
  - apply Forall_map. eapply Forall_impl; [|exact Hall].
    intros [digits item] (_ & Hd & Hdot & _). cbn [fst snd] in *.
    unfold numbered_line. cbn [fst snd].
    rewrite all_chars_append. cbn [all_chars]. rewrite Hdot.
    rewrite (all_chars_impl is_digit dot digits); [reflexivity | | exact Hd].
    intros c Hc. unfold dot.
    destruct (Ascii.eqb_spec c nl) as [-> | _]; [discriminate | reflexivity].
Qed.

(** X18. A numbered list, one line per item made of a number, a dot, a
    space and the item, is converted to the items joined and closed by
    newlines, with one ordered bullet request over them.  The numbers
    written are dropped, whatever they are, and the items go to the buffer
    as they are written. *)
Theorem numbered_lines : forall entries,
  entries <> [] -> Forall numbered_entry entries ->
  parse_markdown_to_doc_requests
    (String.concat NL (map numbered_line entries))
  = (String.concat NL (map snd entries) ++ NL,
     [createParagraphBullets 1
        (1 + len (String.concat NL (map snd entries) ++ NL))
        "NUMBERED_DECIMAL_ALPHA_ROMAN"]).
Proof. exact parse_numbered_lines. Qed.

(** The theorem at a list of two items numbered 1 and 1. *)
Lemma numbered_lines_witness :
  parse_markdown_to_doc_requests
    (String.concat NL (map numbered_line [("1", "a"); ("1", "b")]))
  = (String.concat NL (map snd [("1", "a"); ("1", "b")]) ++ NL,
     [createParagraphBullets 1
        (1 + len (String.concat NL (map snd [("1", "a"); ("1", "b")]) ++ NL))
        "NUMBERED_DECIMAL_ALPHA_ROMAN"]).
Proof.
  apply (numbered_lines [("1", "a"); ("1", "b")]).
  - discriminate.
  - repeat constructor; discriminate.
Defined.

(** X19. For a non-empty list of entries, each a number made of digits
    and an item that holds no newline and does not start with a white
    space, a valid document and an accepted folder: inserting the items
    as a numbered list at the start of a document with
    [insert_bullet_list_impl] sends the requests that
    [markdown_to_google_doc_impl] sends, batch after batch, for the same
    entries written in markdown, one line per entry made of the number, a
    dot, a space and the item: the same text inserted at index 1 and the
    same ordered bullet request over the same range. *)
Theorem insert_numbered_list_agrees_with_converter :
  forall doc_id entries last_end_index title folder_id new_doc_id,
  validate_google_id doc_id = true ->
  folder_accepted folder_id = true ->
  entries <> [] -> Forall numbered_entry entries ->
  exists batches returned returned',
    markdown_to_google_doc_impl title
      (String.concat NL (map numbered_line entries)) folder_id new_doc_id
    = Sent batches returned' /\
    insert_bullet_list_impl doc_id (map snd entries) true None false
      last_end_index
    = Sent (List.concat batches) returned.
Proof.
  intros doc_id entries last_end_index title folder_id new_doc_id
    Hvalid Hfolder Hne Hall.
  destruct (markdown_to_google_doc_impl_accepted title
              (String.concat NL (map numbered_line entries))
              folder_id new_doc_id Hfolder) as (returned' & ->).
  rewrite (parse_numbered_lines entries Hne Hall).
  cbn [fst snd map]. eexists. eexists. exists returned'.
  split; [reflexivity|]. cbn [List.concat app].
  unfold insert_bullet_list_impl. rewrite Hvalid. cbn [negb].
  destruct entries as [|entry entries]; [congruence|]. reflexivity.
Qed.

(** The theorem at a list of two items numbered 1 and 2. *)
Lemma insert_numbered_list_agrees_with_converter_witness :
  exists batches returned returned',
    markdown_to_google_doc_impl "T"
      (String.concat NL (map numbered_line [("1", "a"); ("2", "b")])) None
      "klmnopqrst"
    = Sent batches returned' /\
    insert_bullet_list_impl "abcdefghij"
      (map snd [("1", "a"); ("2", "b")]) true None false 0
    = Sent (List.concat batches) returned.
Proof.
  apply (insert_numbered_list_agrees_with_converter "abcdefghij"
           [("1", "a"); ("2", "b")] 0 "T" None "klmnopqrst").
  - reflexivity.
  - reflexivity.
  - discriminate.
  - repeat constructor; discriminate.
Defined.
